(** * browserstack.local: the LocalSingleton lifecycle controller

    A shallow embedding of [src/browserstack/local.py].  Python objects are
    tagged unions, the option mapping is an insertion-ordered association
    list (the order of the keys decides the order of the command tokens),
    and the methods of [LocalSingleton] run in a small monad that threads
    the instance, records the calls made to the operating system and
    carries exceptions.  The instance survives an exception, as the Python
    object does. *)

From Stdlib Require Import String Ascii ZArith List Bool Lia DecimalString.
Import ListNotations.
Open Scope string_scope.
Set Warnings "-register-all".

(** ** Python values *)

Module Py.

(** The values an option, the access key or a path can hold. *)
Inductive value : Type :=
| VNone
| VBool (b : bool)
| VInt (z : Z)
| VStr (s : string).

(** [str(v)] *)
Definition str (v : value) : string :=
  match v with
  | VNone => "None"
  | VBool true => "True"
  | VBool false => "False"
  | VInt z => NilZero.string_of_int (Z.to_int z)
  | VStr s => s
  end.

(** [bool(v)]: the truth value used by [if v] and [and]. *)
Definition truthy (v : value) : bool :=
  match v with
  | VNone => false
  | VBool b => b
  | VInt z => negb (Z.eqb z 0)
  | VStr s => negb (String.eqb s "")
  end.

(** [s.lower()].  Strings are kept as their UTF-8 bytes; only the bytes of
    the letters A to Z change.  No character outside ASCII lowers to a letter
    of "true" or "false", so the comparisons made by the argument builder
    are those of Python. *)
Definition lower_ascii (c : ascii) : ascii :=
  let n := nat_of_ascii c in
  if (65 <=? n)%nat && (n <=? 90)%nat then ascii_of_nat (n + 32) else c.

Fixpoint lower (s : string) : string :=
  match s with
  | EmptyString => EmptyString
  | String c r => String (lower_ascii c) (lower r)
  end.

(** *** Insertion-ordered dictionaries with string keys *)

Definition dict : Type := list (string * value).

Fixpoint dict_get (d : dict) (k : string) : option value :=
  match d with
  | [] => None
  | (k', v) :: r => if String.eqb k' k then Some v else dict_get r k
  end.

(** [k in d] *)
Definition dict_contains (d : dict) (k : string) : bool :=
  match dict_get d k with Some _ => true | None => false end.

(** [d[k] = v]: an existing key keeps its place, a new key goes last. *)
Fixpoint dict_set (d : dict) (k : string) (v : value) : dict :=
  match d with
  | [] => [(k, v)]
  | (k', v') :: r =>
      if String.eqb k' k then (k', v) :: r else (k', v') :: dict_set r k v
  end.

(** [del d[k]] *)
Fixpoint dict_del (d : dict) (k : string) : dict :=
  match d with
  | [] => []
  | (k', v') :: r =>
      if String.eqb k' k then dict_del r k else (k', v') :: dict_del r k
  end.

(** [d.keys()] *)
Definition dict_keys (d : dict) : list string := map fst d.

(** [for k, v in kwargs.items(): d[k] = v] *)
Definition dict_update (d kwargs : dict) : dict :=
  fold_left (fun acc kv => dict_set acc (fst kv) (snd kv)) kwargs d.

End Py.
Import Py.

(** ** The argument builder *)

(** [LocalSingleton.__xstr], lines 47-56. *)
Definition __xstr (key : option string) (v : value) : list value :=
  match key with
  | None => [VStr ""]
  | Some k =>
      if String.eqb (lower (str v)) "true" then [VStr ("-" ++ k)]
      else if String.eqb (lower (str v)) "false" then [VStr ""]
      else [VStr ("-" ++ k); v]
  end.

(** ** Decoded handshakes: the values [json.loads] returns *)

Module Json.

Inductive json : Type :=
| JNull
| JBool (b : bool)
| JInt (z : Z)
| JFloat (lit : string)          (* a float, kept as its literal *)
| JStr (s : string)
| JList (l : list json)
| JDict (d : list (string * json)).

(** [d[k] = v] on the decoded object: a repeated key keeps its last value. *)
Fixpoint jdict_set (d : list (string * json)) (k : string) (v : json)
  : list (string * json) :=
  match d with
  | [] => [(k, v)]
  | (k', v') :: r =>
      if String.eqb k' k then (k', v) :: r else (k', v') :: jdict_set r k v
  end.

Fixpoint jdict_get (d : list (string * json)) (k : string) : option json :=
  match d with
  | [] => None
  | (k', v) :: r => if String.eqb k' k then Some v else jdict_get r k
  end.

(** *** Characters *)

Definition dquote : ascii := ascii_of_nat 34.
Definition backslash : ascii := ascii_of_nat 92.

Definition code (c : ascii) : N := N_of_ascii c.

Definition is_ws (c : ascii) : bool :=
  let n := code c in
  (n =? 32)%N || (n =? 9)%N || (n =? 10)%N || (n =? 13)%N.

Definition is_digit (c : ascii) : bool :=
  let n := code c in (48 <=? n)%N && (n <=? 57)%N.

Definition hex_value (c : ascii) : option N :=
  let n := code c in
  if (48 <=? n)%N && (n <=? 57)%N then Some (n - 48)%N
  else if (65 <=? n)%N && (n <=? 70)%N then Some (n - 55)%N
  else if (97 <=? n)%N && (n <=? 102)%N then Some (n - 87)%N
  else None.

Definition hex4 (a b c d : ascii) : option N :=
  match hex_value a, hex_value b, hex_value c, hex_value d with
  | Some x, Some y, Some z, Some t => Some (x * 4096 + y * 256 + z * 16 + t)%N
  | _, _, _, _ => None
  end.

Definition byte (n : N) : string := String (ascii_of_N n) EmptyString.

(** The UTF-8 bytes of a code point; a lone surrogate gets the three bytes
    of its value, so that distinct Python strings stay distinct. *)
Definition utf8 (cp : N) : string :=
  if (cp <? 128)%N then byte cp
  else if (cp <? 2048)%N then byte (192 + cp / 64) ++ byte (128 + cp mod 64)
  else if (cp <? 65536)%N then
    byte (224 + cp / 4096) ++ byte (128 + (cp / 64) mod 64)
      ++ byte (128 + cp mod 64)
  else
    byte (240 + cp / 262144) ++ byte (128 + (cp / 4096) mod 64)
      ++ byte (128 + (cp / 64) mod 64) ++ byte (128 + cp mod 64).

Definition is_high_surrogate (cp : N) : bool := (55296 <=? cp)%N && (cp <? 56320)%N.
Definition is_low_surrogate (cp : N) : bool := (56320 <=? cp)%N && (cp <? 57344)%N.
Definition join_surrogates (hi lo : N) : N :=
  (65536 + (hi - 55296) * 1024 + (lo - 56320))%N.

Fixpoint skip_ws (s : string) : string :=
  match s with
  | String c r => if is_ws c then skip_ws r else s
  | EmptyString => s
  end.

(** The longest prefix of digits, and what follows it. *)
Fixpoint span_digits (s : string) : string * string :=
  match s with
  | String c r =>
      if is_digit c then let (ds, rest) := span_digits r in (String c ds, rest)
      else (EmptyString, s)
  | EmptyString => (EmptyString, s)
  end.

Fixpoint digits_value (acc : Z) (ds : string) : Z :=
  match ds with
  | String c r => digits_value (10 * acc + Z.of_N (code c - 48)) r
  | EmptyString => acc
  end.

(** *** The scanner *)

(** The body of a string literal, after its opening quote: the decoded text
    and what follows the closing quote.  Control characters are refused
    (strict mode), as is an escape that is not one of JSON's. *)
Fixpoint scan_string (s : string) : option (string * string) :=
  match s with
  | EmptyString => None
  | String c r =>
      if Ascii.eqb c dquote then Some (EmptyString, r)
      else if Ascii.eqb c backslash then
        match r with
        | String e r1 =>
            let simple (b : string) :=
              match scan_string r1 with
              | Some (t, rest) => Some (b ++ t, rest)
              | None => None
              end in
            if Ascii.eqb e dquote then simple (String dquote EmptyString)
            else if Ascii.eqb e backslash then simple (String backslash EmptyString)
            else if Ascii.eqb e "/" then simple "/"
            else if Ascii.eqb e "b" then simple (byte 8)
            else if Ascii.eqb e "f" then simple (byte 12)
            else if Ascii.eqb e "n" then simple (byte 10)
            else if Ascii.eqb e "r" then simple (byte 13)
            else if Ascii.eqb e "t" then simple (byte 9)
            else if Ascii.eqb e "u" then
              match r1 with
              | String h1 (String h2 (String h3 (String h4 r2))) =>
                  match hex4 h1 h2 h3 h4 with
                  | None => None
                  | Some cp =>
                      let alone :=
                        match scan_string r2 with
                        | Some (t, rest) => Some (utf8 cp ++ t, rest)
                        | None => None
                        end in
                      if is_high_surrogate cp then
                        match r2 with
                        | String b1 (String u1 (String l1 (String l2
                            (String l3 (String l4 r3))))) =>
                            if Ascii.eqb b1 backslash && Ascii.eqb u1 "u" then
                              match hex4 l1 l2 l3 l4 with
                              | None => None
                              | Some lo =>
                                  if is_low_surrogate lo then
                                    match scan_string r3 with
                                    | Some (t, rest) =>
                                        Some (utf8 (join_surrogates cp lo) ++ t, rest)
                                    | None => None
                                    end
                                  else alone
                              end
                            else alone
                        | _ => alone
                        end
                      else alone
                  end
              | _ => None
              end
            else None
        | EmptyString => None
        end
      else if (code c <? 32)%N then None
      else
        match scan_string r with
        | Some (t, rest) => Some (String c t, rest)
        | None => None
        end
  end.

(** A number literal: an optional minus sign, then a zero or a digit from 1
    to 9 followed by digits, then an optional fraction (a dot and one digit
    or more) and an optional exponent (e or E, an optional sign, one digit or
    more).  With neither fraction nor exponent it is an [int], otherwise a
    [float]. *)
Definition scan_number (s : string) : option (json * string) :=
  let '(neg, s1) :=
    match s with
    | String c r => if Ascii.eqb c "-" then (true, r) else (false, s)
    | EmptyString => (false, s)
    end in
  match s1 with
  | String c r =>
      if is_digit c then
        let '(ip, s2) :=
          if Ascii.eqb c "0" then ("0", r) else span_digits s1 in
        let '(frac, s3) :=
          match s2 with
          | String p r2 =>
              if Ascii.eqb p "." then
                let '(ds, r3) := span_digits r2 in
                match ds with
                | EmptyString => (EmptyString, s2)
                | _ => (String p ds, r3)
                end
              else (EmptyString, s2)
          | EmptyString => (EmptyString, s2)
          end in
        let '(ex, s4) :=
          match s3 with
          | String e r3 =>
              if Ascii.eqb e "e" || Ascii.eqb e "E" then
                let '(sg, r4) :=
                  match r3 with
                  | String g r' =>
                      if Ascii.eqb g "+" || Ascii.eqb g "-"
                      then (String g EmptyString, r') else (EmptyString, r3)
                  | EmptyString => (EmptyString, r3)
                  end in
                let '(ds, r5) := span_digits r4 in
                match ds with
                | EmptyString => (EmptyString, s3)
                | _ => (String e (sg ++ ds), r5)
                end
              else (EmptyString, s3)
          | EmptyString => (EmptyString, s3)
          end in
        match frac, ex with
        | EmptyString, EmptyString =>
            let z := digits_value 0 ip in
            Some (JInt (if neg then (- z)%Z else z), s4)
        | _, _ =>
            Some (JFloat ((if neg then "-" else "") ++ ip ++ frac ++ ex), s4)
        end
      else None
  | EmptyString => None
  end.

(** [strip_prefix p s]: what follows [p] in [s], when [s] starts with [p]. *)
Fixpoint strip_prefix (p s : string) : option string :=
  match p, s with
  | EmptyString, _ => Some s
  | String a p', String b s' => if Ascii.eqb a b then strip_prefix p' s' else None
  | String _ _, EmptyString => None
  end.

(** The literals, then the numbers. *)
Definition scan_atom (s : string) : option (json * string) :=
  match strip_prefix "null" s with Some r => Some (JNull, r) | None =>
  match strip_prefix "true" s with Some r => Some (JBool true, r) | None =>
  match strip_prefix "false" s with Some r => Some (JBool false, r) | None =>
  match strip_prefix "NaN" s with Some r => Some (JFloat "NaN", r) | None =>
  match strip_prefix "Infinity" s with Some r => Some (JFloat "Infinity", r) | None =>
  match strip_prefix "-Infinity" s with Some r => Some (JFloat "-Infinity", r) | None =>
  scan_number s
  end end end end end end.

Inductive scanned : Type :=
| Scanned (v : json) (rest : string)
| Malformed
| OutOfFuel.

(** [scan_once]: one value at the head of [s].  An array or an object scans
    its items with the same function, so the recursion is on a budget; see
    [loads] for the budget and [scan_fuel] for why it is never spent. *)
Fixpoint scan_once (fuel : nat) (s : string) : scanned :=
  match fuel with
  | O => OutOfFuel
  | S f =>
      match s with
      | EmptyString => Malformed
      | String c r =>
          if Ascii.eqb c dquote then
            match scan_string r with
            | Some (t, rest) => Scanned (JStr t) rest
            | None => Malformed
            end
          else if Ascii.eqb c "[" then
            match skip_ws r with
            | String c1 r1 =>
                if Ascii.eqb c1 "]" then Scanned (JList []) r1
                else scan_array f (skip_ws r) []
            | EmptyString => Malformed
            end
          else if Ascii.eqb c "{" then
            match skip_ws r with
            | String c1 r1 =>
                if Ascii.eqb c1 "}" then Scanned (JDict []) r1
                else scan_object f (skip_ws r) []
            | EmptyString => Malformed
            end
          else
            match scan_atom s with
            | Some (v, rest) => Scanned v rest
            | None => Malformed
            end
      end
  end

with scan_array (fuel : nat) (s : string) (acc : list json) : scanned :=
  match fuel with
  | O => OutOfFuel
  | S f =>
      match scan_once f s with
      | Scanned v rest =>
          match skip_ws rest with
          | String c r =>
              if Ascii.eqb c "]" then Scanned (JList (acc ++ [v])) r
              else if Ascii.eqb c "," then scan_array f (skip_ws r) (acc ++ [v])
              else Malformed
          | EmptyString => Malformed
          end
      | Malformed => Malformed
      | OutOfFuel => OutOfFuel
      end
  end

with scan_object (fuel : nat) (s : string) (acc : list (string * json)) : scanned :=
  match fuel with
  | O => OutOfFuel
  | S f =>
      match s with
      | String q r =>
          if Ascii.eqb q dquote then
            match scan_string r with
            | Some (k, rest) =>
                match skip_ws rest with
                | String c r1 =>
                    if Ascii.eqb c ":" then
                      match scan_once f (skip_ws r1) with
                      | Scanned v rest1 =>
                          match skip_ws rest1 with
                          | String c2 r2 =>
                              if Ascii.eqb c2 "}" then
                                Scanned (JDict (jdict_set acc k v)) r2
                              else if Ascii.eqb c2 "," then
                                scan_object f (skip_ws r2) (jdict_set acc k v)
                              else Malformed
                          | EmptyString => Malformed
                          end
                      | Malformed => Malformed
                      | OutOfFuel => OutOfFuel
                      end
                    else Malformed
                | EmptyString => Malformed
                end
            | None => Malformed
            end
          else Malformed
      | EmptyString => Malformed
      end
  end.

End Json.
Import Json.

(** ** Exceptions *)

(** The exceptions the calls of the controller raise, all of them instances
    of [Exception].  [JSONDecodeError] and [UnicodeDecodeError] are
    subclasses of [ValueError] in Python.  An interrupt that arrives from
    outside a call (KeyboardInterrupt, SystemExit) is not modelled. *)
Inductive exn : Type :=
| JSONDecodeError
| UnicodeDecodeError
| ValueError (msg : string)
| KeyError (k : string)
| TypeError (msg : string)
| IndexError (msg : string)
| UnboundLocalError (name : string)
| RecursionError
| OSError (msg : string)
| BrowserStackLocalError (arg : json).

(** Modelled from the spec: the class [BrowserStackLocalError] of
    browserstack/bserrors.py, which is not among the sources.  The spec
    (section 7) keeps the handshake rejection error, raised inside the [try]
    block of [start], apart from the handshake parse error and lets it reach
    the caller with the daemon's message: the class is no subclass of
    [ValueError]. *)
Definition BrowserStackLocalError_is_ValueError : bool := false.

(** [isinstance(e, ValueError)], the test of [except ValueError]. *)
Definition is_ValueError (e : exn) : bool :=
  match e with
  | JSONDecodeError | UnicodeDecodeError | ValueError _ => true
  | BrowserStackLocalError _ => BrowserStackLocalError_is_ValueError
  | _ => false
  end.

(** ** The library calls of the handshake *)

Definition in_range (lo hi : N) (c : ascii) : bool :=
  (lo <=? code c)%N && (code c <=? hi)%N.

Definition continuation : ascii -> bool := in_range 128 191.

(** Well-formed UTF-8: no overlong form, no surrogate, nothing above
    U+10FFFF. *)
Fixpoint utf8_valid (s : string) : bool :=
  match s with
  | EmptyString => true
  | String a r =>
      let n := code a in
      if (n <=? 127)%N then utf8_valid r
      else if in_range 194 223 a then
        match r with
        | String b r1 => continuation b && utf8_valid r1
        | _ => false
        end
      else if in_range 224 239 a then
        match r with
        | String b (String c r2) =>
            in_range (if (n =? 224)%N then 160 else 128)
                     (if (n =? 237)%N then 159 else 191) b
            && continuation c && utf8_valid r2
        | _ => false
        end
      else if in_range 240 244 a then
        match r with
        | String b (String c (String d r3)) =>
            in_range (if (n =? 240)%N then 144 else 128)
                     (if (n =? 244)%N then 143 else 191) b
            && continuation c && continuation d && utf8_valid r3
        | _ => false
        end
      else false
  end.

(** [b.decode()]: the text of well-formed UTF-8 bytes.  A [str] is kept as
    its UTF-8 bytes, so the text is the bytes themselves. *)
Definition decode (b : string) : exn + string :=
  if utf8_valid b then inr b else inl UnicodeDecodeError.

(** [json.loads(s)]: leading blanks, one value, trailing blanks, the end.
    The budget is twice the length of the text plus one; [loads_total] shows
    that it is never spent.  Python's own recursion limit is not modelled. *)
Definition loads (s : string) : exn + json :=
  match scan_once (2 * String.length s + 1) (skip_ws s) with
  | Scanned v rest =>
      match skip_ws rest with
      | EmptyString => inr v
      | String _ _ => inl JSONDecodeError
      end
  | Malformed => inl JSONDecodeError
  | OutOfFuel => inl RecursionError
  end.

(** [data[k]] for a string [k]. *)
Definition getitem (data : json) (k : string) : exn + json :=
  match data with
  | JDict d =>
      match jdict_get d k with
      | Some v => inr v
      | None => inl (KeyError k)
      end
  | JList _ => inl (TypeError "list indices must be integers or slices, not str")
  | JStr _ => inl (TypeError "string indices must be integers, not 'str'")
  | JNull | JBool _ | JInt _ | JFloat _ =>
      inl (TypeError "object is not subscriptable")
  end.

(** [x != "connected"] *)
Definition is_connected (x : json) : bool :=
  match x with
  | JStr s => String.eqb s "connected"
  | _ => false
  end.

(** [cmd[i] = v] *)
Fixpoint list_setitem (cmd : list value) (i : nat) (v : value)
  : exn + list value :=
  match cmd, i with
  | [], _ => inl (IndexError "list assignment index out of range")
  | _ :: r, O => inr (v :: r)
  | x :: r, S j =>
      match list_setitem r j v with
      | inr r' => inr (x :: r')
      | inl e => inl e
      end
  end.

(** [os.path.join(a, b)] for a relative [b], on POSIX. *)
Fixpoint ends_with_sep (a : string) : bool :=
  match a with
  | EmptyString => false
  | String c EmptyString => Ascii.eqb c "/"
  | String _ r => ends_with_sep r
  end.

Definition path_join (a b : string) : string :=
  match a with
  | EmptyString => b
  | _ => if ends_with_sep a then a ++ b else a ++ "/" ++ b
  end.

(** ** The host *)

(** What the process finds around it: the environment, the installed
    packages, the binary resolver, the daemon, the process table. *)
Record World : Type := {
  environ : string -> option string;
  getcwd : string;
  importlib_metadata : bool;
  package_version : string -> option string;
  pkg_resources_version : string -> option string;
  get_binary : exn + value;
  popen : list value -> option exn;
  communicate : list value -> exn + (string * string);
  pid_exists : json -> exn + bool
}.

(** What a call does to the host, in order. *)
Inductive log_record : Type :=
| LogParseError (raw : string)
| LogStopError (e : exn).

Inductive event : Type :=
| EvGetBinary
| EvPopen (cmd : list value)
| EvCommunicate (cmd : list value)
| EvSystem (line : string)
| EvLogError (r : log_record).

(** ** The singleton *)

Record LocalSingleton : Type := {
  initialized : bool;
  key : value;
  options : dict;
  local_logfile_path : value;
  binary_path : value;
  proc : option (list value);
  pid : option json
}.

Definition set_key (v : value) (self : LocalSingleton) : LocalSingleton :=
  {| initialized := initialized self; key := v; options := options self;
     local_logfile_path := local_logfile_path self;
     binary_path := binary_path self; proc := proc self; pid := pid self |}.

Definition set_options (d : dict) (self : LocalSingleton) : LocalSingleton :=
  {| initialized := initialized self; key := key self; options := d;
     local_logfile_path := local_logfile_path self;
     binary_path := binary_path self; proc := proc self; pid := pid self |}.

Definition set_local_logfile_path (v : value) (self : LocalSingleton)
  : LocalSingleton :=
  {| initialized := initialized self; key := key self; options := options self;
     local_logfile_path := v;
     binary_path := binary_path self; proc := proc self; pid := pid self |}.

Definition set_binary_path (v : value) (self : LocalSingleton) : LocalSingleton :=
  {| initialized := initialized self; key := key self; options := options self;
     local_logfile_path := local_logfile_path self;
     binary_path := v; proc := proc self; pid := pid self |}.

Definition set_proc (c : list value) (self : LocalSingleton) : LocalSingleton :=
  {| initialized := initialized self; key := key self; options := options self;
     local_logfile_path := local_logfile_path self;
     binary_path := binary_path self; proc := Some c; pid := pid self |}.

Definition set_pid (p : json) (self : LocalSingleton) : LocalSingleton :=
  {| initialized := initialized self; key := key self; options := options self;
     local_logfile_path := local_logfile_path self;
     binary_path := binary_path self; proc := proc self; pid := Some p |}.

(** [__new__], lines 26-31: the instance of the class when there is one,
    otherwise a new object that has only its flag.  The other fields of the
    new object do not exist yet; [__init__] sets them before anything reads
    them, [proc] and [pid] stay absent. *)
Definition __new__ (_instance : option LocalSingleton) : LocalSingleton :=
  match _instance with
  | Some self => self
  | None =>
      {| initialized := false; key := VNone; options := [];
         local_logfile_path := VNone; binary_path := VNone;
         proc := None; pid := None |}
  end.

(** [__init__], lines 33-45. *)
Definition __init__ (w : World) (key binary_path : value) (kwargs : dict)
  (self : LocalSingleton) : LocalSingleton :=
  if initialized self then self
  else
    {| initialized := true;
       key := match environ w "BROWSERSTACK_ACCESS_KEY" with
              | Some e => VStr e
              | None => key
              end;
       options := kwargs;
       local_logfile_path := VStr (path_join (getcwd w) "local.log");
       binary_path := binary_path;
       proc := proc self;
       pid := pid self |}.

(** [LocalSingleton(key, binary_path, **kwargs)]: the instance the call
    returns, which is also the class's instance from then on. *)
Definition construct (w : World) (_instance : option LocalSingleton)
  (key binary_path : value) (kwargs : dict) : LocalSingleton :=
  __init__ w key binary_path kwargs (__new__ _instance).

(** ** Methods as computations on the instance *)

Record outcome (A : Type) : Type := Outcome {
  final : LocalSingleton;
  trace : list event;
  result : exn + A
}.
Arguments Outcome {A} _ _ _.
Arguments final {A} _.
Arguments trace {A} _.
Arguments result {A} _.

Definition M (A : Type) : Type := LocalSingleton -> outcome A.

Definition ret {A} (a : A) : M A := fun self => Outcome self [] (inr a).

Definition bind {A B} (m : M A) (f : A -> M B) : M B :=
  fun self =>
    match m self with
    | Outcome self1 t1 (inl e) => Outcome self1 t1 (inl e)
    | Outcome self1 t1 (inr a) =>
        match f a self1 with
        | Outcome self2 t2 r => Outcome self2 (t1 ++ t2) r
        end
    end.

Definition raise {A} (e : exn) : M A := fun self => Outcome self [] (inl e).

Definition get : M LocalSingleton := fun self => Outcome self [] (inr self).

Definition modify (f : LocalSingleton -> LocalSingleton) : M unit :=
  fun self => Outcome (f self) [] (inr tt).

Definition emit (ev : event) : M unit := fun self => Outcome self [ev] (inr tt).

Definition lift {A} (r : exn + A) : M A :=
  match r with
  | inr a => ret a
  | inl e => raise e
  end.

(** [try: body / except <class> as e: handler e] *)
Definition try_except {A} (body : M A) (catches : exn -> bool)
  (handler : exn -> M A) : M A :=
  fun self =>
    match body self with
    | Outcome self1 t1 (inr a) => Outcome self1 t1 (inr a)
    | Outcome self1 t1 (inl e) =>
        if catches e then
          match handler e self1 with
          | Outcome self2 t2 r => Outcome self2 (t1 ++ t2) r
          end
        else Outcome self1 t1 (inl e)
    end.

Declare Scope py_scope.
Delimit Scope py_scope with py.
Notation "x <- m ;; k" := (bind m (fun x => k))
  (at level 61, m at next level, right associativity) : py_scope.
Notation "m ;; k" := (bind m (fun _ => k))
  (at level 61, right associativity) : py_scope.
Open Scope py_scope.

(** ** Command construction *)

(** [get_package_version], lines 58-83: the version of the package, or the
    text None when the package is not installed. *)
Definition get_package_version (w : World) : string :=
  let name := "browserstack-local" in
  let lookup := if importlib_metadata w then package_version w
                else pkg_resources_version w in
  match lookup name with
  | Some version => version
  | None => "None"
  end.

(** The body of the loop of [_generate_cmd], lines 99-100: the tokens of the
    option [o] are appended unless its value is [None]. *)
Definition add_option (options : dict) (cmd : list value) (o : string)
  : list value :=
  match dict_get options o with
  | Some VNone | None => cmd
  | Some v => (cmd ++ __xstr (Some o) v)%list
  end.

(** [_generate_cmd], lines 85-101. *)
Definition _generate_cmd (w : World) (self : LocalSingleton) : list value :=
  let cmd :=
    [ binary_path self;
      VStr "-d";
      VStr "start";
      VStr "-logFile";
      local_logfile_path self;
      VStr "-k";
      key self;
      VStr "--source";
      VStr ("python:" ++ get_package_version w) ] in
  fold_left (add_option (options self)) (dict_keys (options self)) cmd.

(** [_generate_stop_cmd], lines 103-107. *)
Definition _generate_stop_cmd (w : World) (self : LocalSingleton)
  : exn + list value :=
  let cmd := _generate_cmd w self in
  list_setitem cmd 2 (VStr "stop").

(** ** start *)

Definition quote : string := String dquote EmptyString.

(** ["onlyCommand" in kwargs and kwargs["onlyCommand"]], line 128. *)
Definition only_command (kwargs : dict) : bool :=
  match dict_get kwargs "onlyCommand" with
  | Some v => truthy v
  | None => false
  end.

(** Lines 111-126 of [start]: the keyword arguments are merged into the
    options, and the reserved keys are moved to their fields. *)
Definition configure (w : World) (kwargs : dict) : M unit :=
  modify (fun self => set_options (dict_update (options self) kwargs) self) ;;
  self <- get ;;
  match dict_get (options self) "key" with
  | Some v => modify (fun self => set_options (dict_del (options self) "key")
                                    (set_key v self))
  | None => ret tt
  end ;;
  self <- get ;;
  match dict_get (options self) "binarypath" with
  | Some v => modify (fun self => set_options (dict_del (options self) "binarypath")
                                    (set_binary_path v self))
  | None =>
      emit EvGetBinary ;;
      path <- lift (get_binary w) ;;
      modify (set_binary_path path)
  end ;;
  self <- get ;;
  match dict_get (options self) "logfile" with
  | Some v => modify (fun self => set_options (dict_del (options self) "logfile")
                                    (set_local_logfile_path v self))
  | None => ret tt
  end.

(** Lines 131-139 of [start]: the daemon is launched, its output is read to
    the end, and the log file is emptied through the shell.  The value is the
    captured standard output and standard error. *)
Definition spawn (w : World) : M (string * string) :=
  self <- get ;;
  (if dict_contains (options self) "source"
   then modify (fun self => set_options (dict_del (options self) "source") self)
   else ret tt) ;;
  self <- get ;;
  let cmd := _generate_cmd w self in
  emit (EvPopen cmd) ;;
  match popen w cmd with
  | Some e => raise e
  | None => modify (set_proc cmd)
  end ;;
  emit (EvCommunicate cmd) ;;
  streams <- lift (communicate w cmd) ;;
  self <- get ;;
  match local_logfile_path self with
  | VStr path => emit (EvSystem ("echo " ++ quote ++ quote ++ " > "
                                   ++ quote ++ path ++ quote))
  | _ => raise (TypeError "can only concatenate str to str")
  end ;;
  ret streams.

(** The payload of the parse error, line 157. *)
Definition parse_error_message (output_string : string) : string :=
  "Error parsing JSON output from daemon. Raw String = "
    ++ quote ++ output_string ++ quote.

(** The output that is decoded, lines 141-144: standard output unless it is
    empty. *)
Definition chosen_output (out err : string) : string :=
  match out with
  | EmptyString => err
  | String _ _ => out
  end.

(** Lines 140-160 of [start].  [output_string] is bound only when the bytes
    decode; the handler reads it. *)
Definition handshake (out err : string) : M unit :=
  let output_string := decode (chosen_output out err) in
  try_except
    (s <- lift output_string ;;
     data <- lift (loads s) ;;
     state <- lift (getitem data "state") ;;
     if negb (is_connected state) then
       message <- lift (getitem data "message") ;;
       text <- lift (getitem message "message") ;;
       raise (BrowserStackLocalError text)
     else
       p <- lift (getitem data "pid") ;;
       modify (set_pid p))
    is_ValueError
    (fun _ =>
       match output_string with
       | inr s =>
           emit (EvLogError (LogParseError s)) ;;
           raise (BrowserStackLocalError (JStr (parse_error_message s)))
       | inl _ => raise (UnboundLocalError "output_string")
       end).

(** [start], lines 109-160. *)
Definition start (w : World) (kwargs : dict) : M unit :=
  configure w kwargs ;;
  if only_command kwargs then ret tt
  else
    streams <- spawn w ;;
    handshake (fst streams) (snd streams).

(** ** is_running, stop and scoped use *)

(** [is_running], lines 162-167. *)
Definition is_running (w : World) : M bool :=
  self <- get ;;
  match pid self with
  | None => ret false
  | Some p => lift (pid_exists w p)
  end.

(** [stop], lines 169-179. *)
Definition stop (w : World) : M unit :=
  try_except
    (self <- get ;;
     cmd <- lift (_generate_stop_cmd w self) ;;
     emit (EvPopen cmd) ;;
     match popen w cmd with
     | Some e => raise e
     | None => ret tt
     end ;;
     emit (EvCommunicate cmd) ;;
     _ <- lift (communicate w cmd) ;;
     ret tt)
    (fun _ => true)
    (fun e => emit (EvLogError (LogStopError e))).

(** [__enter__], lines 181-184. *)
Definition __enter__ (w : World) : M LocalSingleton :=
  self <- get ;;
  start w (options self) ;;
  get.

(** [__exit__], lines 186-188. *)
Definition __exit__ (w : World) : M unit := stop w.

(** ** Histories of calls *)

(** The calls a program makes on the singleton, each with the host as it is
    at that moment. *)
Inductive call : Type :=
| Construct (w : World) (key binary_path : value) (kwargs : dict)
| Start (w : World) (kwargs : dict)
| Stop (w : World)
| Enter (w : World)
| Exit (w : World).

(** The instance after a call, whether the call returned or raised. *)
Definition step (c : call) (self : LocalSingleton) : LocalSingleton :=
  match c with
  | Construct w key binary_path kwargs =>
      construct w (Some self) key binary_path kwargs
  | Start w kwargs => final (start w kwargs self)
  | Stop w => final (stop w self)
  | Enter w => final (__enter__ w self)
  | Exit w => final (__exit__ w self)
  end.

Definition run (calls : list call) (self : LocalSingleton) : LocalSingleton :=
  fold_left (fun self c => step c self) calls self.

(** ** Vocabulary of the statements *)

(** [preserves I m]: the instance has the property [I] after [m], returned
    or raised, when it had it before. *)
Definition preserves {A} (I : LocalSingleton -> Prop) (m : M A) : Prop :=
  forall self, I self -> I (final (m self)).

(** The call gets as far as the handshake, with these captured streams. *)
Definition reaches_handshake (w : World) (kwargs : dict) (self : LocalSingleton)
  (out err : string) : Prop :=
  only_command kwargs = false
  /\ result (configure w kwargs self) = inr tt
  /\ result (spawn w (final (configure w kwargs self))) = inr (out, err).

(** The instance as the handshake finds it. *)
Definition before_handshake (w : World) (kwargs : dict) (self : LocalSingleton)
  : LocalSingleton :=
  final (spawn w (final (configure w kwargs self))).

(** This call of [start] launched the daemon, returned, and recorded [p]. *)
Definition start_records (w : World) (kwargs : dict) (self : LocalSingleton)
  (p : json) : Prop :=
  only_command kwargs = false
  /\ result (start w kwargs self) = inr tt
  /\ pid (final (start w kwargs self)) = Some p.

Definition records (c : call) (self : LocalSingleton) (p : json) : Prop :=
  match c with
  | Start w kwargs => start_records w kwargs self p
  | Enter w => start_records w (options self) self p
  | _ => False
  end.

(** A value for which the argument builder emits the flag of its key: it is
    not [None], which the command skips, and does not read as false. *)
Definition emits_flag (v : value) : Prop :=
  v <> VNone /\ lower (str v) <> "false".

(** The instance holds an [onlyCommand] option that puts its flag on the
    command line. *)
Definition stores_onlyCommand (self : LocalSingleton) : Prop :=
  exists v, dict_get (options self) "onlyCommand" = Some v /\ emits_flag v.

(** The options are a well-formed dictionary that holds an [onlyCommand]
    with a flag. *)
Definition flagged (d : dict) : Prop :=
  NoDup (dict_keys d)
  /\ exists v, dict_get d "onlyCommand" = Some v /\ emits_flag v.

(** A later call that does not replace the stored [onlyCommand] by a value
    without a flag. *)
Definition keeps_onlyCommand (c : call) : Prop :=
  match c with
  | Start _ kwargs =>
      NoDup (dict_keys kwargs)
      /\ forall v, dict_get kwargs "onlyCommand" = Some v -> emits_flag v
  | _ => True
  end.

(** ** Hosts and handshakes of the examples *)

Definition example_host (env_key : option string) (binary : exn + value)
  (out err : string) : World :=
  {| environ := fun name =>
       if String.eqb name "BROWSERSTACK_ACCESS_KEY" then env_key else None;
     getcwd := "/home/ci";
     importlib_metadata := true;
     package_version := fun _ => Some "1.0.0";
     pkg_resources_version := fun _ => None;
     get_binary := binary;
     popen := fun _ => None;
     communicate := fun _ => inr (out, err);
     pid_exists := fun p => inr (match p with JInt 4321 => true | _ => false end) |}.

Definition quoted (s : string) : string := quote ++ s ++ quote.

(** The text of a connected handshake with identifier 4321. *)
Definition connected_handshake : string :=
  "{" ++ quoted "state" ++ ":" ++ quoted "connected" ++ ","
      ++ quoted "pid" ++ ":4321}".

(** The text of a rejected handshake with the message bad key. *)
Definition rejected_handshake : string :=
  "{" ++ quoted "state" ++ ":" ++ quoted "error" ++ ","
      ++ quoted "message" ++ ":{" ++ quoted "message" ++ ":"
      ++ quoted "bad key" ++ "}}".

Definition binary : exn + value := inr (VStr "/opt/BrowserStackLocal").

(** A freshly constructed singleton with the key given as argument. *)
Definition example_singleton : LocalSingleton :=
  construct (example_host None binary "" "") None (VStr "ARGKEY") VNone [].

(** Hosts whose daemon answers with a connected handshake, a rejected one,
    and text that is not JSON on standard error. *)
Definition connected_host : World := example_host None binary connected_handshake "".
Definition rejected_host : World := example_host None binary rejected_handshake "".
Definition garbled_host : World := example_host None binary "" "not json".

(** A host whose daemon writes a byte that is not UTF-8 on standard error. *)
Definition undecodable_host : World :=
  example_host None binary "" (String (ascii_of_nat 255) EmptyString).

(** A host whose binary resolver fails. *)
Definition unresolved_host : World :=
  example_host None
    (inl (BrowserStackLocalError (JStr "Error trying to download BrowserStack Local binary")))
    connected_handshake "".

(** The singleton after a successful start. *)
Definition started_singleton : LocalSingleton :=
  final (start connected_host [] example_singleton).

(** The singleton after a dry run, and after a later start that sets
    onlyCommand to False. *)
Definition dry_run_singleton : LocalSingleton :=
  final (start connected_host [("onlyCommand", VBool true)] example_singleton).

Definition overridden_singleton : LocalSingleton :=
  final (start connected_host [("onlyCommand", VBool false)] dry_run_singleton).

(** ** Vocabulary of the further properties *)

(** The tokens one stored option puts on the command line. *)
Definition option_tokens (kv : string * value) : list value :=
  match snd kv with
  | VNone => []
  | v => __xstr (Some (fst kv)) v
  end.

(** The nine tokens every start command begins with, lines 87-97. *)
Definition cmd_head (w : World) (self : LocalSingleton) : list value :=
  [ binary_path self; VStr "-d"; VStr "start"; VStr "-logFile";
    local_logfile_path self; VStr "-k"; key self; VStr "--source";
    VStr ("python:" ++ get_package_version w) ].

(** The shell line of line 139 for a log file path. *)
Definition truncate_line (path : string) : string :=
  "echo " ++ quote ++ quote ++ " > " ++ quote ++ path ++ quote.

(** The instance once lines 131-132 have dropped a source option. *)
Definition without_source (self : LocalSingleton) : LocalSingleton :=
  if dict_contains (options self) "source"
  then set_options (dict_del (options self) "source") self
  else self.

(** The keyword arguments merged into the stored options, lines 111-112. *)
Definition merged (kwargs : dict) (self : LocalSingleton) : dict :=
  dict_update (options self) kwargs.

(** Hosts whose daemon answers with an empty object, with an array, and
    with a rejection whose message is a plain string. *)
Definition empty_object_host : World := example_host None binary "{}" "".
Definition array_host : World := example_host None binary "[]" "".
Definition plain_message_handshake : string :=
  "{" ++ quoted "state" ++ ":" ++ quoted "error" ++ ","
      ++ quoted "message" ++ ":" ++ quoted "bad key" ++ "}".
Definition plain_message_host : World :=
  example_host None binary plain_message_handshake "".

(** * Properties *)

(** ** The scanner consumes its input and never spends its budget *)

Lemma skip_ws_length s : String.length (skip_ws s) <= String.length s.
Proof. induction s as [|c r IH]; simpl; [lia|]. destruct (is_ws c); simpl; lia. Qed.

(** Case analysis on the first [match] of a hypothesis. *)
Ltac break_match :=
  match goal with
  | H : context [match ?x with _ => _ end] |- _ =>
      match type of x with
      | sumbool _ _ => destruct x
      | _ => destruct x eqn:?
      end
  end.

Lemma scan_string_length_aux n :
  forall s t rest, String.length s <= n ->
    scan_string s = Some (t, rest) -> String.length rest < String.length s.
Proof.
  induction n as [|n IH]; intros s t rest Hn H.
  - destruct s; simpl in *; [discriminate | lia].
  - destruct s as [|c r]; [discriminate|].
    cbn [scan_string] in H.
    repeat (break_match; try discriminate);
      try (injection H as <- <-);
      repeat match goal with
      | E : scan_string ?x = Some _ |- _ => apply IH in E; [|simpl in *; lia]
      end; simpl in *; try lia.
Qed.

Lemma scan_string_length s t rest :
  scan_string s = Some (t, rest) -> String.length rest < String.length s.
Proof. apply (scan_string_length_aux (String.length s)); lia. Qed.

Lemma span_digits_length s ds rest :
  span_digits s = (ds, rest) -> String.length rest <= String.length s.
Proof.
  revert ds rest; induction s as [|c r IH]; intros ds rest H; simpl in H.
  - injection H as <- <-; simpl; lia.
  - destruct (is_digit c).
    + destruct (span_digits r) as [d0 r0] eqn:E. injection H as <- <-.
      specialize (IH _ _ eq_refl). simpl; lia.
    + injection H as <- <-. simpl; lia.
Qed.

Lemma span_digits_head c r ds rest :
  is_digit c = true -> span_digits (String c r) = (ds, rest) ->
  String.length rest <= String.length r.
Proof.
  intros Hc H. simpl in H. rewrite Hc in H.
  destruct (span_digits r) as [d0 r0] eqn:E. inversion H; subst.
  now apply span_digits_length in E.
Qed.

Lemma scan_number_length s v rest :
  scan_number s = Some (v, rest) -> String.length rest < String.length s.
Proof.
  unfold scan_number. intros H.
  repeat (break_match; try discriminate);
    inversion H; clear H; subst;
    repeat match goal with
    | E : (_, _) = (_, _) |- _ => inversion E; clear E; subst
    | D : is_digit ?c = true, E : span_digits (String ?c _) = (_, _) |- _ =>
        apply (span_digits_head _ _ _ _ D) in E
    | E : span_digits _ = (_, _) |- _ => apply span_digits_length in E
    end; simpl in *; lia.
Qed.

Lemma strip_prefix_length p : forall s r,
  strip_prefix p s = Some r -> String.length r + String.length p = String.length s.
Proof.
  induction p as [|a p IH]; intros s r H; simpl in H.
  - injection H as <-. simpl; lia.
  - destruct s as [|b s]; [discriminate|]. destruct (Ascii.eqb a b); [|discriminate].
    apply IH in H. simpl; lia.
Qed.

Lemma scan_atom_length s v rest :
  scan_atom s = Some (v, rest) -> String.length rest < String.length s.
Proof.
  unfold scan_atom. intros H.
  repeat (break_match; try discriminate);
    try (injection H as <- <-);
    try (match goal with E : strip_prefix _ _ = Some _ |- _ =>
           apply strip_prefix_length in E; simpl in E; lia end).
  now apply scan_number_length in H.
Qed.

(** A scanned value takes at least one character. *)
Lemma scan_lengths fuel :
  (forall s v rest, scan_once fuel s = Scanned v rest ->
     String.length rest < String.length s)
  /\ (forall s acc v rest, scan_array fuel s acc = Scanned v rest ->
     String.length rest < String.length s)
  /\ (forall s acc v rest, scan_object fuel s acc = Scanned v rest ->
     String.length rest < String.length s).
Proof.
  induction fuel as [|f (IHo & IHa & IHd)]; [repeat split; intros; discriminate|].
  repeat split.
  - intros s v rest H. cbn [scan_once] in H.
    destruct s as [|c r]; [discriminate|].
    destruct (Ascii.eqb c dquote).
    { destruct (scan_string r) as [[t r']|] eqn:E; [|discriminate].
      injection H as <- <-. apply scan_string_length in E. simpl; lia. }
    pose proof (skip_ws_length r) as Hw.
    destruct (Ascii.eqb c "[").
    { destruct (skip_ws r) as [|c1 r1] eqn:E; [discriminate|].
      destruct (Ascii.eqb c1 "]").
      - injection H as <- <-. simpl in *; lia.
      - apply IHa in H. simpl in *; lia. }
    destruct (Ascii.eqb c "{").
    { destruct (skip_ws r) as [|c1 r1] eqn:E; [discriminate|].
      destruct (Ascii.eqb c1 "}").
      - injection H as <- <-. simpl in *; lia.
      - apply IHd in H. simpl in *; lia. }
    destruct (scan_atom (String c r)) as [[v' r']|] eqn:E; [|discriminate].
    injection H as <- <-. now apply scan_atom_length in E.
  - intros s acc v rest H. cbn [scan_array] in H.
    destruct (scan_once f s) as [v1 r1| |] eqn:E; try discriminate.
    apply IHo in E. pose proof (skip_ws_length r1) as Hw.
    destruct (skip_ws r1) as [|c r] eqn:E1; [discriminate|].
    destruct (Ascii.eqb c "]").
    + injection H as <- <-. simpl in *; lia.
    + destruct (Ascii.eqb c ","); [|discriminate].
      apply IHa in H. pose proof (skip_ws_length r). simpl in *; lia.
  - intros s acc v rest H. cbn [scan_object] in H.
    destruct s as [|q r]; [discriminate|].
    destruct (Ascii.eqb q dquote); [|discriminate].
    destruct (scan_string r) as [[k r0]|] eqn:Ek; [|discriminate].
    apply scan_string_length in Ek. pose proof (skip_ws_length r0) as Hw0.
    destruct (skip_ws r0) as [|c r1] eqn:E0; [discriminate|].
    destruct (Ascii.eqb c ":"); [|discriminate].
    pose proof (skip_ws_length r1) as Hw1.
    destruct (scan_once f (skip_ws r1)) as [v1 r2| |] eqn:E; try discriminate.
    apply IHo in E. pose proof (skip_ws_length r2) as Hw2.
    destruct (skip_ws r2) as [|c2 r3] eqn:E2; [discriminate|].
    destruct (Ascii.eqb c2 "}").
    + injection H as <- <-. simpl in *; lia.
    + destruct (Ascii.eqb c2 ","); [|discriminate].
      apply IHd in H. pose proof (skip_ws_length r3). simpl in *; lia.
Qed.

(** Two units of budget for each character are enough: a value inside an
    array or an object costs one unit for the item and one for the value. *)
Lemma scan_fuel fuel :
  (forall s, 2 * String.length s + 1 <= fuel -> scan_once fuel s <> OutOfFuel)
  /\ (forall s acc, 2 * String.length s + 2 <= fuel ->
        scan_array fuel s acc <> OutOfFuel)
  /\ (forall s acc, 2 * String.length s + 2 <= fuel ->
        scan_object fuel s acc <> OutOfFuel).
Proof.
  induction fuel as [|f (IHo & IHa & IHd)]; [repeat split; intros; lia|].
  destruct (scan_lengths f) as (Lo & La & Ld).
  repeat split.
  - intros s Hf. cbn [scan_once].
    destruct s as [|c r]; [discriminate|].
    destruct (Ascii.eqb c dquote).
    { destruct (scan_string r) as [[t r']|]; discriminate. }
    pose proof (skip_ws_length r) as Hw.
    destruct (Ascii.eqb c "[").
    { destruct (skip_ws r) as [|c1 r1] eqn:E; [discriminate|].
      destruct (Ascii.eqb c1 "]"); [discriminate|].
      apply IHa. simpl in *; lia. }
    destruct (Ascii.eqb c "{").
    { destruct (skip_ws r) as [|c1 r1] eqn:E; [discriminate|].
      destruct (Ascii.eqb c1 "}"); [discriminate|].
      apply IHd. simpl in *; lia. }
    destruct (scan_atom (String c r)) as [[v' r']|]; discriminate.
  - intros s acc Hf. cbn [scan_array].
    destruct (scan_once f s) as [v1 r1| |] eqn:E; try discriminate.
    + apply Lo in E. pose proof (skip_ws_length r1) as Hw.
      destruct (skip_ws r1) as [|c r] eqn:E1; [discriminate|].
      destruct (Ascii.eqb c "]"); [discriminate|].
      destruct (Ascii.eqb c ","); [|discriminate].
      apply IHa. pose proof (skip_ws_length r). simpl in *; lia.
    + exfalso. revert E. apply IHo. lia.
  - intros s acc Hf. cbn [scan_object].
    destruct s as [|q r]; [discriminate|].
    destruct (Ascii.eqb q dquote); [|discriminate].
    destruct (scan_string r) as [[k r0]|] eqn:Ek; [|discriminate].
    apply scan_string_length in Ek. pose proof (skip_ws_length r0) as Hw0.
    destruct (skip_ws r0) as [|c r1] eqn:E0; [discriminate|].
    destruct (Ascii.eqb c ":"); [|discriminate].
    pose proof (skip_ws_length r1) as Hw1.
    destruct (scan_once f (skip_ws r1)) as [v1 r2| |] eqn:E; try discriminate.
    + apply Lo in E. pose proof (skip_ws_length r2) as Hw2.
      destruct (skip_ws r2) as [|c2 r3] eqn:E2; [discriminate|].
      destruct (Ascii.eqb c2 "}"); [discriminate|].
      destruct (Ascii.eqb c2 ","); [|discriminate].
      apply IHd. pose proof (skip_ws_length r3). simpl in *; lia.
    + exfalso. revert E. apply IHo. simpl in *; lia.
Qed.

(** [loads] always answers: a value, or [JSONDecodeError]. *)
Lemma loads_total s : loads s <> inl RecursionError.
Proof.
  unfold loads.
  destruct (scan_once _ (skip_ws s)) as [v r| |] eqn:E.
  - destruct (skip_ws r); discriminate.
  - discriminate.
  - exfalso. revert E. apply (proj1 (scan_fuel _)).
    pose proof (skip_ws_length s). lia.
Qed.

Lemma loads_error s e : loads s = inl e -> e = JSONDecodeError.
Proof.
  unfold loads. intros H.
  destruct (scan_once _ (skip_ws s)) as [v r| |] eqn:E.
  - destruct (skip_ws r); congruence.
  - congruence.
  - exfalso. revert E. apply (proj1 (scan_fuel _)).
    pose proof (skip_ws_length s). lia.
Qed.

(** ** Dictionaries *)

Section DictFacts.

Variables (d : dict) (k : string).

Lemma dict_get_set_eq v : dict_get (dict_set d k v) k = Some v.
Proof.
  induction d as [|[k' v'] r IH]; simpl.
  - now rewrite String.eqb_refl.
  - destruct (String.eqb k' k) eqn:E; simpl; rewrite E; auto.
Qed.

Lemma dict_get_set_ne k' v : k' <> k -> dict_get (dict_set d k' v) k = dict_get d k.
Proof.
  intros Hne. induction d as [|[k0 v0] r IH]; simpl.
  - apply String.eqb_neq in Hne. now rewrite Hne.
  - destruct (String.eqb k0 k') eqn:E; simpl.
    + apply String.eqb_eq in E; subst k0.
      apply String.eqb_neq in Hne. now rewrite Hne.
    + now rewrite IH.
Qed.

Lemma dict_get_del_ne k' : k' <> k -> dict_get (dict_del d k') k = dict_get d k.
Proof.
  intros Hne. induction d as [|[k0 v0] r IH]; simpl; auto.
  destruct (String.eqb k0 k') eqn:E; simpl.
  - apply String.eqb_eq in E; subst k0.
    apply String.eqb_neq in Hne. now rewrite Hne.
  - now rewrite IH.
Qed.

Lemma dict_get_del_eq : dict_get (dict_del d k) k = None.
Proof.
  induction d as [|[k0 v0] r IH]; simpl; auto.
  destruct (String.eqb k0 k) eqn:E; simpl; auto. now rewrite E.
Qed.

Lemma dict_get_in_keys v : dict_get d k = Some v -> In k (dict_keys d).
Proof.
  induction d as [|[k0 v0] r IH]; simpl; [discriminate|].
  destruct (String.eqb k0 k) eqn:E; auto.
  apply String.eqb_eq in E; auto.
Qed.

Lemma dict_get_not_in_keys : ~ In k (dict_keys d) -> dict_get d k = None.
Proof.
  induction d as [|[k0 v0] r IH]; simpl; auto.
  intros H. destruct (String.eqb k0 k) eqn:E.
  - apply String.eqb_eq in E. tauto.
  - apply IH. tauto.
Qed.

End DictFacts.

Lemma dict_keys_set d k v :
  dict_keys (dict_set d k v) =
  if in_dec string_dec k (dict_keys d) then dict_keys d else (dict_keys d ++ [k])%list.
Proof.
  unfold dict_keys.
  induction d as [|[k0 v0] r IH]; simpl; auto.
  destruct (String.eqb k0 k) eqn:E.
  - apply String.eqb_eq in E; subst. simpl.
    destruct (string_dec k k); [|congruence]. reflexivity.
  - apply String.eqb_neq in E. simpl. rewrite IH.
    destruct (string_dec k0 k); [congruence|].
    destruct (in_dec string_dec k (map fst r)); reflexivity.
Qed.

Lemma dict_set_unique d k v : NoDup (dict_keys d) -> NoDup (dict_keys (dict_set d k v)).
Proof.
  intros H. rewrite dict_keys_set.
  destruct (in_dec string_dec k (dict_keys d)); auto.
  apply NoDup_app; auto.
  - repeat constructor. intros [].
  - intros a Ha [<-|[]]. contradiction.
Qed.

Lemma dict_keys_del d k :
  dict_keys (dict_del d k) = filter (fun k' => negb (String.eqb k' k)) (dict_keys d).
Proof.
  unfold dict_keys.
  induction d as [|[k0 v0] r IH]; simpl; auto.
  destruct (String.eqb k0 k); simpl; auto. now rewrite IH.
Qed.

Lemma dict_del_unique d k : NoDup (dict_keys d) -> NoDup (dict_keys (dict_del d k)).
Proof. intros H. rewrite dict_keys_del. now apply NoDup_filter. Qed.

Lemma dict_update_unique kwargs : forall d,
  NoDup (dict_keys d) -> NoDup (dict_keys (dict_update d kwargs)).
Proof.
  unfold dict_update.
  induction kwargs as [|[k v] r IH]; intros d H; simpl; auto.
  apply IH. now apply dict_set_unique.
Qed.

(** A keyword argument replaces the stored value; the other keys keep
    theirs. *)
Lemma dict_get_update kwargs k : forall d,
  NoDup (dict_keys kwargs) ->
  dict_get (dict_update d kwargs) k =
  match dict_get kwargs k with
  | Some v => Some v
  | None => dict_get d k
  end.
Proof.
  unfold dict_update.
  induction kwargs as [|[k0 v0] r IH]; intros d H; simpl; auto.
  inversion H as [|? ? Hnotin Hr]; subst.
  rewrite IH by assumption.
  destruct (String.eqb k0 k) eqn:E.
  - apply String.eqb_eq in E; subst k0.
    rewrite (dict_get_not_in_keys r k Hnotin). apply dict_get_set_eq.
  - apply String.eqb_neq in E.
    destruct (dict_get r k); auto. now apply dict_get_set_ne.
Qed.

(** ** Computations that keep a property of the instance *)

Section Preserves.

Variable I : LocalSingleton -> Prop.

Lemma preserves_ret {A} (a : A) : preserves I (ret a).
Proof. intros self H; exact H. Qed.

Lemma preserves_raise {A} (e : exn) : preserves I (@raise A e).
Proof. intros self H; exact H. Qed.

Lemma preserves_get : preserves I get.
Proof. intros self H; exact H. Qed.

Lemma preserves_emit ev : preserves I (emit ev).
Proof. intros self H; exact H. Qed.

Lemma preserves_lift {A} (r : exn + A) : preserves I (lift r).
Proof. destruct r; intros self H; exact H. Qed.

Lemma preserves_modify f : (forall self, I self -> I (f self)) -> preserves I (modify f).
Proof. intros Hf self H. now apply Hf. Qed.

Lemma preserves_bind {A B} (m : M A) (f : A -> M B) :
  preserves I m -> (forall a, preserves I (f a)) -> preserves I (bind m f).
Proof.
  intros Hm Hf self H. unfold bind.
  specialize (Hm self H). destruct (m self) as [self1 t1 [e|a]]; simpl in *; auto.
  specialize (Hf a self1 Hm). destruct (f a self1); auto.
Qed.

Lemma preserves_try_except {A} (body : M A) catches handler :
  preserves I body -> (forall e, preserves I (handler e)) ->
  preserves I (try_except body catches handler).
Proof.
  intros Hb Hh self H. unfold try_except.
  specialize (Hb self H). destruct (body self) as [self1 t1 [e|a]]; simpl in *; auto.
  destruct (catches e); simpl; auto.
  specialize (Hh e self1 Hb). destruct (handler e self1); auto.
Qed.

End Preserves.

Create HintDb preserves.
#[local] Hint Resolve preserves_ret preserves_raise preserves_get preserves_emit
  preserves_lift : preserves.

(** Splits a computation along its binds and branches; what is left are the
    assignments to the instance. *)
Ltac preserves_steps :=
  repeat first
    [ apply preserves_bind; [| intros ? ]
    | apply preserves_try_except; [| intros ? ]
    | solve [ auto with preserves ]
    | match goal with
      | |- preserves _ (match ?x with _ => _ end) => destruct x
      | |- preserves _ (if ?b then _ else _) => destruct b
      end ].

(** A property of the instance that no assignment of [configure] touches
    survives [configure]; likewise for [spawn]. *)
Lemma configure_preserves (I : LocalSingleton -> Prop) w kwargs :
  (forall d self, I self -> I (set_options d self)) ->
  (forall v self, I self -> I (set_key v self)) ->
  (forall v self, I self -> I (set_binary_path v self)) ->
  (forall v self, I self -> I (set_local_logfile_path v self)) ->
  preserves I (configure w kwargs).
Proof.
  intros Ho Hk Hb Hl. unfold configure.
  preserves_steps; apply preserves_modify; intros; auto.
Qed.

Lemma spawn_preserves (I : LocalSingleton -> Prop) w :
  (forall d self, I self -> I (set_options d self)) ->
  (forall c self, I self -> I (set_proc c self)) ->
  preserves I (spawn w).
Proof.
  intros Ho Hp. unfold spawn.
  preserves_steps; apply preserves_modify; intros; auto.
Qed.

Lemma configure_pid w kwargs self : pid (final (configure w kwargs self)) = pid self.
Proof. apply (configure_preserves (fun s => pid s = pid self)); auto. Qed.

Lemma spawn_pid w self : pid (final (spawn w self)) = pid self.
Proof. apply (spawn_preserves (fun s => pid s = pid self)); auto. Qed.

Lemma handshake_preserves (I : LocalSingleton -> Prop) out err :
  (forall p self, I self -> I (set_pid p self)) ->
  preserves I (handshake out err).
Proof.
  intros Hp. unfold handshake.
  preserves_steps; apply preserves_modify; intros; auto.
Qed.

Lemma start_preserves (I : LocalSingleton -> Prop) w kwargs :
  (forall d self, I self -> I (set_options d self)) ->
  (forall v self, I self -> I (set_key v self)) ->
  (forall v self, I self -> I (set_binary_path v self)) ->
  (forall v self, I self -> I (set_local_logfile_path v self)) ->
  (forall c self, I self -> I (set_proc c self)) ->
  (forall p self, I self -> I (set_pid p self)) ->
  preserves I (start w kwargs).
Proof.
  intros Ho Hk Hb Hl Hc Hp. unfold start.
  apply preserves_bind; [now apply configure_preserves | intros _].
  destruct (only_command kwargs); [apply preserves_ret|].
  apply preserves_bind; [now apply spawn_preserves | intros streams].
  now apply handshake_preserves.
Qed.

Lemma start_initialized w kwargs self :
  initialized (final (start w kwargs self)) = initialized self.
Proof. apply (start_preserves (fun s => initialized s = initialized self)); auto. Qed.

(** ** The handshake *)

(** Decoding gives the bytes back as text, when it gives anything. *)
Lemma decode_text b s : decode b = inr s -> s = b.
Proof. unfold decode. destruct (utf8_valid b); congruence. Qed.

#[local] Opaque loads decode.

Lemma is_connected_true x : is_connected x = true <-> x = JStr "connected".
Proof.
  split.
  - destruct x; simpl; try discriminate. intros H.
    apply String.eqb_eq in H. now subst.
  - intros ->. reflexivity.
Qed.

Lemma is_connected_false x : x <> JStr "connected" -> is_connected x = false.
Proof.
  intros H. destruct (is_connected x) eqn:E; auto.
  apply is_connected_true in E. contradiction.
Qed.

(** Text that is not JSON: the error is logged and raised with the text,
    and the instance is as it was. *)
Lemma handshake_parse_error out err self s e :
  decode (chosen_output out err) = inr s -> loads s = inl e ->
  handshake out err self =
  Outcome self [EvLogError (LogParseError s)]
    (inl (BrowserStackLocalError (JStr (parse_error_message s)))).
Proof.
  intros Hd Hl. apply loads_error in Hl as He. subst e.
  unfold handshake, try_except, bind. rewrite Hd. simpl. rewrite Hl. reflexivity.
Qed.

(** Bytes that are not text: the handler has no [output_string] to report. *)
Lemma handshake_undecodable out err self :
  decode (chosen_output out err) = inl UnicodeDecodeError ->
  handshake out err self =
  Outcome self [] (inl (UnboundLocalError "output_string")).
Proof.
  intros Hd. unfold handshake, try_except, bind. rewrite Hd. reflexivity.
Qed.

(** A handshake that reports another state than connected. *)
Lemma handshake_rejected out err self s data state message text :
  decode (chosen_output out err) = inr s -> loads s = inr data ->
  getitem data "state" = inr state -> state <> JStr "connected" ->
  getitem data "message" = inr message ->
  getitem message "message" = inr text ->
  handshake out err self = Outcome self [] (inl (BrowserStackLocalError text)).
Proof.
  intros Hd Hl Hs Hne Hm Ht. apply is_connected_false in Hne.
  unfold handshake, try_except, bind. rewrite Hd. simpl. rewrite Hl. simpl.
  rewrite Hs. simpl. rewrite Hne. simpl. rewrite Hm. simpl. rewrite Ht.
  reflexivity.
Qed.

(** A handshake that reports the connected state and an identifier. *)
Lemma handshake_connected out err self s data p :
  decode (chosen_output out err) = inr s -> loads s = inr data ->
  getitem data "state" = inr (JStr "connected") ->
  getitem data "pid" = inr p ->
  handshake out err self = Outcome (set_pid p self) [] (inr tt).
Proof.
  intros Hd Hl Hs Hp.
  unfold handshake, try_except, bind. rewrite Hd. simpl. rewrite Hl. simpl.
  rewrite Hs. simpl. rewrite Hp. reflexivity.
Qed.

(** Every handshake either records the identifier it reports, or raises and
    leaves the instance as it was. *)
Lemma handshake_cases out err self :
  (exists s data p,
      decode (chosen_output out err) = inr s /\ loads s = inr data
      /\ getitem data "state" = inr (JStr "connected")
      /\ getitem data "pid" = inr p
      /\ result (handshake out err self) = inr tt
      /\ final (handshake out err self) = set_pid p self)
  \/ (exists e, result (handshake out err self) = inl e
                /\ final (handshake out err self) = self).
Proof.
  destruct (decode (chosen_output out err)) as [e|s] eqn:Hd.
  { right. unfold handshake, try_except, bind. rewrite Hd. simpl.
    destruct (is_ValueError e); simpl; eauto. }
  destruct (loads s) as [e|data] eqn:Hl.
  { right. erewrite handshake_parse_error by eassumption. simpl; eauto. }
  destruct (getitem data "state") as [e|state] eqn:Hs.
  { right. unfold handshake, try_except, bind. rewrite Hd. simpl. rewrite Hl.
    simpl. rewrite Hs. simpl. destruct data; simpl in Hs; try discriminate;
      try (injection Hs as <-; simpl; eauto).
    destruct (jdict_get d "state"); [discriminate|].
    injection Hs as <-. simpl; eauto. }
  destruct (is_connected state) eqn:Hc.
  - apply is_connected_true in Hc. subst state.
    destruct (getitem data "pid") as [e|p] eqn:Hp.
    + right. unfold handshake, try_except, bind. rewrite Hd. simpl. rewrite Hl.
      simpl. rewrite Hs. simpl. rewrite Hp. simpl.
      destruct data; simpl in Hp; try discriminate;
        try (injection Hp as <-; simpl; eauto).
      destruct (jdict_get d "pid"); [discriminate|].
      injection Hp as <-. simpl; eauto.
    + left. exists s, data, p. erewrite handshake_connected by eassumption.
      simpl. auto 10.
  - right. unfold handshake, try_except, bind. rewrite Hd. simpl. rewrite Hl.
    simpl. rewrite Hs. simpl. rewrite Hc. simpl.
    assert (Hty : forall x k e, getitem x k = inl e -> is_ValueError e = false).
    { intros x k e. destruct x; simpl; try (intros H; injection H as <-; reflexivity).
      destruct (jdict_get d k); [discriminate|].
      intros H; injection H as <-; reflexivity. }
    destruct (getitem data "message") as [e|m] eqn:Hm; simpl.
    { rewrite (Hty _ _ _ Hm). simpl. eauto. }
    destruct (getitem m "message") as [e|t] eqn:Ht; simpl.
    { rewrite (Hty _ _ _ Ht). simpl. eauto. }
    simpl. eauto.
Qed.

(** ** start, from its parts *)

(** A dry run is [configure] and nothing more. *)
Lemma start_only_command w kwargs self :
  only_command kwargs = true ->
  final (start w kwargs self) = final (configure w kwargs self)
  /\ trace (start w kwargs self) = trace (configure w kwargs self)
  /\ result (start w kwargs self) = result (configure w kwargs self).
Proof.
  intros H. unfold start, bind. rewrite H.
  destruct (configure w kwargs self) as [self1 t1 [e|[]]]; simpl; auto.
  now rewrite app_nil_r.
Qed.

Lemma start_handshake w kwargs self out err :
  reaches_handshake w kwargs self out err ->
  let c := configure w kwargs self in
  let s := spawn w (final c) in
  let h := handshake out err (before_handshake w kwargs self) in
  start w kwargs self = Outcome (final h) (trace c ++ trace s ++ trace h) (result h).
Proof.
  intros (Hoc & Hc & Hs). unfold before_handshake, start, bind. rewrite Hoc.
  destruct (configure w kwargs self) as [self1 t1 r1]; simpl in *; subst r1.
  destruct (spawn w self1) as [self2 t2 r2]; simpl in *; subst r2. simpl.
  destruct (handshake out err self2) as [self3 t3 r3]; simpl.
  now rewrite app_assoc.
Qed.

(** What a call of [start] can do to the recorded identifier: set it to the
    one a connected handshake reports, or leave it alone. *)
Lemma start_pid_cases w kwargs self :
  (exists out err s data p,
      reaches_handshake w kwargs self out err
      /\ decode (chosen_output out err) = inr s /\ loads s = inr data
      /\ getitem data "state" = inr (JStr "connected")
      /\ getitem data "pid" = inr p
      /\ result (start w kwargs self) = inr tt
      /\ final (start w kwargs self) = set_pid p (before_handshake w kwargs self))
  \/ (pid (final (start w kwargs self)) = pid self
      /\ (result (start w kwargs self) = inr tt -> only_command kwargs = true)).
Proof.
  destruct (only_command kwargs) eqn:Hoc.
  { right. destruct (start_only_command w kwargs self Hoc) as (-> & _ & _).
    split; auto. apply configure_pid. }
  pose proof (configure_pid w kwargs self) as Pc.
  destruct (result (configure w kwargs self)) as [e|[]] eqn:Hc.
  { right. unfold start, bind.
    destruct (configure w kwargs self) as [self1 t1 r1]; simpl in *; subst r1.
    simpl. split; [assumption | discriminate]. }
  pose proof (spawn_pid w (final (configure w kwargs self))) as Ps.
  destruct (result (spawn w (final (configure w kwargs self)))) as [e|[out err]] eqn:Hs.
  { right. unfold start, bind. rewrite Hoc.
    destruct (configure w kwargs self) as [self1 t1 r1]; simpl in *; subst r1.
    destruct (spawn w self1) as [self2 t2 r2]; simpl in *; subst r2.
    simpl. split; [congruence | discriminate]. }
  assert (Hr : reaches_handshake w kwargs self out err) by (repeat split; assumption).
  rewrite (start_handshake _ _ _ _ _ Hr). simpl.
  destruct (handshake_cases out err (before_handshake w kwargs self))
    as [(s & data & p & Hd & Hl & Hst & Hp & Hres & Hfin) | (e & Hres & Hfin)].
  - left. exists out, err, s, data, p. auto 10.
  - right. rewrite Hfin, Hres. unfold before_handshake.
    split; [congruence | discriminate].
Qed.

(** ** The argument builder *)

(** C1, as the code has it: for a key [k] and a value [v], when [str(v)]
    lowered is true the builder gives the single token -k; when it is false
    the builder gives a single token too, the empty string (not zero tokens);
    for any other string value it gives two tokens, -k and the value. *)
Theorem xstr_tokens (k : string) (v : value) :
  (lower (str v) = "true" -> __xstr (Some k) v = [VStr ("-" ++ k)])
  /\ (lower (str v) = "false" -> __xstr (Some k) v = [VStr ""])
  /\ (forall s, v = VStr s -> lower s <> "true" -> lower s <> "false" ->
        __xstr (Some k) v = [VStr ("-" ++ k); VStr (str v)]).
Proof.
  unfold __xstr. repeat split.
  - intros ->. reflexivity.
  - intros ->. reflexivity.
  - intros s -> Ht Hf. simpl.
    apply String.eqb_neq in Ht, Hf. now rewrite Ht, Hf.
Qed.

(** C1 at three inputs, one for each case. *)
Lemma xstr_tokens_witness :
  __xstr (Some "forcelocal") (VStr "TRUE") = [VStr "-forcelocal"]
  /\ __xstr (Some "forcelocal") (VBool false) = [VStr ""]
  /\ __xstr (Some "proxyHost") (VStr "10.0.0.1") = [VStr "-proxyHost"; VStr "10.0.0.1"].
Proof.
  split; [| split].
  - apply (proj1 (xstr_tokens "forcelocal" (VStr "TRUE"))). reflexivity.
  - apply (proj1 (proj2 (xstr_tokens "forcelocal" (VBool false)))). reflexivity.
  - apply (proj2 (proj2 (xstr_tokens "proxyHost" (VStr "10.0.0.1"))) "10.0.0.1");
      [reflexivity | discriminate | discriminate].
Defined.

(** C1 as stated fails: a value that reads as false yields one token, not
    none. *)
Lemma xstr_false_is_one_token :
  lower (str (VBool false)) = "false"
  /\ __xstr (Some "forcelocal") (VBool false) = [VStr ""]
  /\ length (__xstr (Some "forcelocal") (VBool false)) = 1.
Proof. repeat split. Qed.

(** A value that is not a string goes into the command as it is. *)
Lemma xstr_passes_value_through :
  __xstr (Some "proxyPort") (VInt 8080) = [VStr "-proxyPort"; VInt 8080].
Proof. reflexivity. Qed.

(** ** Construction *)

(** C2, as the code has it: at the first construction the environment
    variable BROWSERSTACK_ACCESS_KEY, when set, becomes the key whatever the
    key argument is; the argument is the fallback when the variable is not
    set.  A later construction changes nothing. *)
Theorem construct_key (w : World) (k b : value) (kwargs : dict) :
  (forall e, environ w "BROWSERSTACK_ACCESS_KEY" = Some e ->
     key (construct w None k b kwargs) = VStr e)
  /\ (environ w "BROWSERSTACK_ACCESS_KEY" = None ->
     key (construct w None k b kwargs) = k)
  /\ (forall self, initialized self = true ->
     construct w (Some self) k b kwargs = self).
Proof.
  unfold construct, __init__, __new__; simpl. repeat split.
  - intros e ->. reflexivity.
  - intros ->. reflexivity.
  - intros self ->. reflexivity.
Qed.

Lemma construct_key_witness :
  key (construct (example_host (Some "ENVKEY") (inr VNone) "" "") None
         (VStr "ARGKEY") VNone []) = VStr "ENVKEY"
  /\ key (construct (example_host None (inr VNone) "" "") None
         (VStr "ARGKEY") VNone []) = VStr "ARGKEY".
Proof.
  split.
  - apply (proj1 (construct_key _ _ _ _)). reflexivity.
  - apply (proj1 (proj2 (construct_key _ _ _ _))). reflexivity.
Defined.

(** C2 as stated fails: with the variable set to ENVKEY and the argument
    ARGKEY, the key of the new singleton is ENVKEY. *)
Lemma construct_environment_wins :
  environ (example_host (Some "ENVKEY") (inr VNone) "" "")
    "BROWSERSTACK_ACCESS_KEY" = Some "ENVKEY"
  /\ key (construct (example_host (Some "ENVKEY") (inr VNone) "" "") None
            (VStr "ARGKEY") VNone []) = VStr "ENVKEY"
  /\ key (construct (example_host (Some "ENVKEY") (inr VNone) "" "") None
            (VStr "ARGKEY") VNone []) <> VStr "ARGKEY".
Proof. repeat split. discriminate. Qed.

(** ** Commands *)

(** The loop of [_generate_cmd] only appends to the command. *)
Lemma generate_cmd_extends (d : dict) (keys : list string) : forall cmd,
  exists extra, fold_left (add_option d) keys cmd = (cmd ++ extra)%list.
Proof.
  induction keys as [|o r IH]; intros cmd; cbn [fold_left].
  - exists []. now rewrite app_nil_r.
  - unfold add_option at 2.
    destruct (dict_get d o) as [[]|];
      try (destruct (IH cmd) as [x ->]; now exists x);
      match goal with
      | |- context [fold_left _ r (cmd ++ ?t)%list] =>
          destruct (IH (cmd ++ t)%list) as [x ->]; exists (t ++ x)%list;
          now rewrite app_assoc
      end.
Qed.

(** The command starts with the binary, -d and the sub-command. *)
Lemma generate_cmd_shape (w : World) (self : LocalSingleton) :
  exists post,
    _generate_cmd w self = binary_path self :: VStr "-d" :: VStr "start" :: post.
Proof.
  unfold _generate_cmd.
  match goal with
  | |- context [fold_left ?f ?l ?c] =>
      destruct (generate_cmd_extends (options self) l c) as [extra ->]
  end.
  simpl. eauto.
Qed.

(** C5: the stop command is the start command with the token at index 2,
    which is start, replaced by stop; the tokens before and after it are the
    same, in the same order. *)
Theorem stop_cmd_is_start_cmd (w : World) (self : LocalSingleton) :
  exists pre post,
    length pre = 2
    /\ _generate_cmd w self = (pre ++ VStr "start" :: post)%list
    /\ _generate_stop_cmd w self = inr (pre ++ VStr "stop" :: post)%list.
Proof.
  destruct (generate_cmd_shape w self) as [post E].
  exists [binary_path self; VStr "-d"], post.
  unfold _generate_stop_cmd. rewrite E. repeat split.
Qed.

(** ** stop *)

(** C8: [stop] returns normally in every state and on every host, and leaves
    the instance as it was.  When the launch or the wait raises, or the
    command cannot be built, the exception is logged and goes no further. *)
Theorem stop_never_raises (w : World) (self : LocalSingleton) :
  result (stop w self) = inr tt
  /\ final (stop w self) = self
  /\ (forall e, _generate_stop_cmd w self = inl e ->
        trace (stop w self) = [EvLogError (LogStopError e)])
  /\ (forall cmd e, _generate_stop_cmd w self = inr cmd -> popen w cmd = Some e ->
        trace (stop w self) = [EvPopen cmd; EvLogError (LogStopError e)])
  /\ (forall cmd e, _generate_stop_cmd w self = inr cmd -> popen w cmd = None ->
        communicate w cmd = inl e ->
        trace (stop w self)
        = [EvPopen cmd; EvCommunicate cmd; EvLogError (LogStopError e)]).
Proof.
  unfold stop, try_except, bind, get, lift, emit, raise, ret.
  destruct (_generate_stop_cmd w self) as [e|cmd]; simpl.
  { repeat split; intros; congruence. }
  destruct (popen w cmd) as [e|] eqn:Hp; simpl.
  { repeat split; intros; congruence. }
  destruct (communicate w cmd) as [e|[out err]] eqn:Hc; simpl;
    repeat split; intros; congruence.
Qed.

Lemma stop_final (w : World) (self : LocalSingleton) : final (stop w self) = self.
Proof.
  unfold stop, try_except, bind, get, lift, emit, raise, ret.
  destruct (_generate_stop_cmd w self) as [e|cmd]; simpl; auto.
  destruct (popen w cmd) as [e|]; simpl; auto.
  destruct (communicate w cmd) as [e|[out err]]; reflexivity.
Qed.

(** ** start *)

(** C3, as the code has it: a call of [start] that raises leaves the
    process-identifier field exactly as it was before the call (unset when
    no earlier start recorded one, the earlier identifier otherwise); so
    does a dry run, which returns without recording anything; and a call
    that launches the daemon and returns has recorded the identifier that
    the handshake reports. *)
Theorem start_pid_atomic (w : World) (kwargs : dict) (self : LocalSingleton) :
  (forall e, result (start w kwargs self) = inl e ->
     pid (final (start w kwargs self)) = pid self)
  /\ (only_command kwargs = true ->
     pid (final (start w kwargs self)) = pid self)
  /\ (only_command kwargs = false -> result (start w kwargs self) = inr tt ->
     exists out err s data p,
       reaches_handshake w kwargs self out err
       /\ decode (chosen_output out err) = inr s /\ loads s = inr data
       /\ getitem data "pid" = inr p
       /\ pid (final (start w kwargs self)) = Some p).
Proof.
  destruct (start_pid_cases w kwargs self)
    as [(out & err & s & data & p & Hr & Hd & Hl & _ & Hp & Hres & Hfin)
       | (Hpid & Hdry)].
  - pose proof (proj1 Hr) as Hoc. rewrite Hres, Hfin. repeat split.
    + discriminate.
    + congruence.
    + intros _ _. exists out, err, s, data, p. auto.
  - repeat split; auto.
    intros Hoc Hres. specialize (Hdry Hres). congruence.
Qed.

Lemma start_pid_atomic_witness :
  pid (final (start garbled_host [] example_singleton)) = None
  /\ pid (final (start connected_host [("onlyCommand", VBool true)] example_singleton))
     = None
  /\ exists p, pid (final (start connected_host [] example_singleton)) = Some p.
Proof.
  split; [| split].
  - apply (proj1 (start_pid_atomic garbled_host [] example_singleton)
             (BrowserStackLocalError (JStr (parse_error_message "not json")))).
    vm_compute. reflexivity.
  - apply (proj1 (proj2 (start_pid_atomic connected_host
                           [("onlyCommand", VBool true)] example_singleton))).
    reflexivity.
  - destruct (proj2 (proj2 (start_pid_atomic connected_host [] example_singleton)))
      as (out & err & s & data & p & _ & _ & _ & _ & Hp);
      [reflexivity | vm_compute; reflexivity |].
    exists p. exact Hp.
Defined.

(** C3 as stated fails: a start that raises after an earlier successful
    start leaves the earlier identifier in the field. *)
Lemma failed_restart_keeps_pid :
  result (start connected_host [] example_singleton) = inr tt
  /\ pid started_singleton = Some (JInt 4321)
  /\ result (start rejected_host [] started_singleton)
     = inl (BrowserStackLocalError (JStr "bad key"))
  /\ pid (final (start rejected_host [] started_singleton)) = Some (JInt 4321).
Proof. repeat split; vm_compute; reflexivity. Qed.

(** Whether [configure] raises is decided by the binary resolver alone, and
    it is asked only when no binarypath option is there. *)
Lemma configure_outcome (w : World) (kwargs : dict) (self : LocalSingleton) :
  match dict_get (dict_update (options self) kwargs) "binarypath" with
  | Some _ =>
      result (configure w kwargs self) = inr tt
      /\ trace (configure w kwargs self) = []
  | None =>
      trace (configure w kwargs self) = [EvGetBinary]
      /\ result (configure w kwargs self)
         = match get_binary w with inl e => inl e | inr _ => inr tt end
  end.
Proof.
  unfold configure, bind, modify, get, ret, emit, lift, raise. simpl.
  set (d := dict_update (options self) kwargs).
  destruct (dict_get d "key") as [vk|] eqn:Hk; simpl.
  - rewrite dict_get_del_ne by discriminate.
    destruct (dict_get d "binarypath") as [vb|] eqn:Hb; simpl.
    + rewrite !dict_get_del_ne by discriminate.
      destruct (dict_get d "logfile"); simpl; auto.
    + destruct (get_binary w) as [e|path]; simpl; auto.
      rewrite !dict_get_del_ne by discriminate.
      destruct (dict_get d "logfile"); simpl; auto.
  - destruct (dict_get d "binarypath") as [vb|] eqn:Hb; simpl.
    + rewrite !dict_get_del_ne by discriminate.
      destruct (dict_get d "logfile"); simpl; auto.
    + destruct (get_binary w) as [e|path]; simpl; auto.
      destruct (dict_get d "logfile"); simpl; auto.
Qed.

Lemma configure_proc w kwargs self : proc (final (configure w kwargs self)) = proc self.
Proof. apply (configure_preserves (fun s => proc s = proc self)); auto. Qed.

(** C4, as the code has it: when onlyCommand is among the keyword arguments
    of the call with a true value, and the binary path is settled (a
    binarypath option is there, or the resolver returns a path), [start]
    returns normally; it launches no process, does not touch the log file,
    and the only thing it may have done on the host is to ask the resolver. *)
Theorem dry_run_spawns_nothing (w : World) (kwargs : dict) (self : LocalSingleton) :
  only_command kwargs = true ->
  dict_contains (dict_update (options self) kwargs) "binarypath" = true
    \/ (exists path, get_binary w = inr path) ->
  result (start w kwargs self) = inr tt
  /\ (forall ev, In ev (trace (start w kwargs self)) -> ev = EvGetBinary)
  /\ proc (final (start w kwargs self)) = proc self
  /\ pid (final (start w kwargs self)) = pid self.
Proof.
  intros Hoc Hbin.
  destruct (start_only_command w kwargs self Hoc) as (-> & -> & ->).
  rewrite configure_proc, configure_pid.
  pose proof (configure_outcome w kwargs self) as H.
  unfold dict_contains in Hbin.
  destruct (dict_get (dict_update (options self) kwargs) "binarypath").
  - destruct H as (-> & ->). repeat split; auto. intros ev [].
  - destruct H as (-> & ->).
    destruct Hbin as [Hb | (path & ->)]; [discriminate|].
    repeat split; auto. intros ev [<-|[]]; reflexivity.
Qed.

Lemma dry_run_spawns_nothing_witness :
  result (start connected_host [("onlyCommand", VBool true)] example_singleton)
  = inr tt
  /\ (forall ev,
        In ev (trace (start connected_host [("onlyCommand", VBool true)]
                        example_singleton)) -> ev = EvGetBinary)
  /\ proc (final (start connected_host [("onlyCommand", VBool true)]
                    example_singleton)) = proc example_singleton
  /\ pid (final (start connected_host [("onlyCommand", VBool true)]
                   example_singleton)) = pid example_singleton.
Proof.
  apply (dry_run_spawns_nothing connected_host [("onlyCommand", VBool true)]
           example_singleton).
  - reflexivity.
  - right. exists (VStr "/opt/BrowserStackLocal"). reflexivity.
Defined.

(** C4 as stated fails: a dry run raises when no binarypath option is given
    and the resolver fails. *)
Lemma dry_run_resolver_failure :
  only_command [("onlyCommand", VBool true)] = true
  /\ result (start unresolved_host [("onlyCommand", VBool true)] example_singleton)
     = inl (BrowserStackLocalError
              (JStr "Error trying to download BrowserStack Local binary")).
Proof. split; vm_compute; reflexivity. Qed.

(** ** The handshake, seen from start *)

(** X1, the part of C6 that holds: when the call reaches the handshake and
    the chosen output (standard error when standard output is empty) is
    text that is not JSON, [start] logs the text and raises the parse error,
    whose payload holds the text as it was read. *)
Theorem parse_error_carries_output (w : World) (kwargs : dict)
  (self : LocalSingleton) (out err s : string) (e : exn) :
  reaches_handshake w kwargs self out err ->
  decode (chosen_output out err) = inr s ->
  loads s = inl e ->
  (out = "" -> s = err)
  /\ result (start w kwargs self)
     = inl (BrowserStackLocalError (JStr (parse_error_message s)))
  /\ (exists pre post, parse_error_message s = pre ++ s ++ post)
  /\ In (EvLogError (LogParseError s)) (trace (start w kwargs self)).
Proof.
  intros Hr Hd Hl. split; [| split; [| split]].
  - intros ->. now apply decode_text in Hd.
  - rewrite (start_handshake _ _ _ _ _ Hr).
    now rewrite (handshake_parse_error _ _ _ _ _ Hd Hl).
  - unfold parse_error_message.
    exists ("Error parsing JSON output from daemon. Raw String = " ++ quote), quote.
    reflexivity.
  - rewrite (start_handshake _ _ _ _ _ Hr).
    rewrite (handshake_parse_error _ _ _ _ _ Hd Hl). simpl.
    apply in_or_app. right. apply in_or_app. right. now left.
Qed.

Lemma parse_error_carries_output_witness :
  result (start garbled_host [] example_singleton)
  = inl (BrowserStackLocalError (JStr (parse_error_message "not json")))
  /\ (exists pre post, parse_error_message "not json" = pre ++ "not json" ++ post).
Proof.
  assert (H := parse_error_carries_output garbled_host [] example_singleton
                 "" "not json" "not json" JSONDecodeError).
  destruct H as (_ & H1 & H2 & _).
  - repeat split; vm_compute; reflexivity.
  - vm_compute; reflexivity.
  - vm_compute; reflexivity.
  - split; assumption.
Defined.

(** C6, where the code departs from it: when the chosen output is bytes
    that are not UTF-8, the decoding raises inside the [try] block, the
    handler for [ValueError] reads [output_string] before it was ever bound,
    and [start] raises [UnboundLocalError] instead of the parse error. *)
Theorem start_undecodable_output (w : World) (kwargs : dict)
  (self : LocalSingleton) (out err : string) :
  reaches_handshake w kwargs self out err ->
  decode (chosen_output out err) = inl UnicodeDecodeError ->
  result (start w kwargs self) = inl (UnboundLocalError "output_string").
Proof.
  intros Hr Hd. rewrite (start_handshake _ _ _ _ _ Hr).
  now rewrite (handshake_undecodable _ _ _ Hd).
Qed.

(** With nothing on standard output and the byte 255 on standard error. *)
Lemma start_undecodable_output_witness :
  result (start undecodable_host [] example_singleton)
  = inl (UnboundLocalError "output_string").
Proof.
  apply (start_undecodable_output undecodable_host [] example_singleton
           "" (String (ascii_of_nat 255) EmptyString)).
  - repeat split; vm_compute; reflexivity.
  - vm_compute; reflexivity.
Defined.

(** C7: when the call reaches the handshake and its text decodes to [data]:
    if the state of [data] is not connected, [start] raises the error whose
    message is the message inside the message of [data]; if the state is
    connected and [data] has a pid, [start] returns and the recorded
    identifier is that pid. *)
Theorem handshake_decides_start (w : World) (kwargs : dict)
  (self : LocalSingleton) (out err s : string) (data : json) :
  reaches_handshake w kwargs self out err ->
  decode (chosen_output out err) = inr s ->
  loads s = inr data ->
  (forall state message text,
      getitem data "state" = inr state -> state <> JStr "connected" ->
      getitem data "message" = inr message ->
      getitem message "message" = inr text ->
      result (start w kwargs self) = inl (BrowserStackLocalError text))
  /\ (forall p,
      getitem data "state" = inr (JStr "connected") ->
      getitem data "pid" = inr p ->
      result (start w kwargs self) = inr tt
      /\ pid (final (start w kwargs self)) = Some p).
Proof.
  intros Hr Hd Hl. split.
  - intros state message text Hs Hne Hm Ht.
    rewrite (start_handshake _ _ _ _ _ Hr).
    now rewrite (handshake_rejected _ _ _ _ _ _ _ _ Hd Hl Hs Hne Hm Ht).
  - intros p Hs Hp.
    rewrite (start_handshake _ _ _ _ _ Hr).
    now rewrite (handshake_connected _ _ _ _ _ _ Hd Hl Hs Hp).
Qed.

Lemma handshake_decides_start_witness :
  result (start rejected_host [] example_singleton)
  = inl (BrowserStackLocalError (JStr "bad key"))
  /\ result (start connected_host [] example_singleton) = inr tt
  /\ pid (final (start connected_host [] example_singleton)) = Some (JInt 4321).
Proof.
  split.
  - refine (proj1 (handshake_decides_start rejected_host [] example_singleton
                     rejected_handshake "" rejected_handshake
                     (JDict [("state", JStr "error");
                             ("message", JDict [("message", JStr "bad key")])])
                     _ _ _)
              (JStr "error") (JDict [("message", JStr "bad key")]) (JStr "bad key")
              _ _ _ _);
      try discriminate; try (repeat split); vm_compute; reflexivity.
  - refine (proj2 (handshake_decides_start connected_host [] example_singleton
                     connected_handshake "" connected_handshake
                     (JDict [("state", JStr "connected"); ("pid", JInt 4321)])
                     _ _ _)
              (JInt 4321) _ _);
      try (repeat split); vm_compute; reflexivity.
Defined.

(** ** Histories *)

Lemma enter_final (w : World) (self : LocalSingleton) :
  final (__enter__ w self) = final (start w (options self) self).
Proof.
  unfold __enter__, bind, get. simpl.
  now destruct (start w (options self) self) as [self1 t1 [e|[]]].
Qed.

Lemma construct_again (w : World) (k b : value) (kwargs : dict) (self : LocalSingleton) :
  pid (construct w (Some self) k b kwargs) = pid self
  /\ (initialized self = true -> construct w (Some self) k b kwargs = self).
Proof.
  unfold construct, __init__, __new__.
  destruct (initialized self); simpl; auto. split; [reflexivity | discriminate].
Qed.

Lemma start_records_or_keeps (w : World) (kwargs : dict) (self : LocalSingleton) :
  pid (final (start w kwargs self)) = pid self
  \/ exists p, start_records w kwargs self p.
Proof.
  destruct (start_pid_cases w kwargs self)
    as [(out & err & s & data & p & Hr & _ & _ & _ & _ & Hres & Hfin) | (Hpid & _)];
    [right | now left].
  exists p. destruct Hr as (Hoc & _). repeat split; auto. now rewrite Hfin.
Qed.

(** A call leaves the identifier alone or is a start that records one. *)
Lemma step_pid (c : call) (self : LocalSingleton) :
  pid (step c self) = pid self
  \/ exists p, records c self p /\ pid (step c self) = Some p.
Proof.
  destruct c as [w k b kw | w kw | w | w | w]; simpl.
  - left. apply construct_again.
  - destruct (start_records_or_keeps w kw self) as [H | (p & H)]; [now left | right].
    exists p. split; [assumption | apply H].
  - left. now rewrite stop_final.
  - rewrite enter_final.
    destruct (start_records_or_keeps w (options self) self) as [H | (p & H)];
      [now left | right].
    exists p. split; [assumption | apply H].
  - left. unfold __exit__. now rewrite stop_final.
Qed.

Lemma run_snoc (calls : list call) (c : call) (self : LocalSingleton) :
  run (calls ++ [c]) self = step c (run calls self).
Proof. unfold run. now rewrite fold_left_app. Qed.

(** An identifier in the field was put there by a start of the history,
    unless it was there from the beginning. *)
Lemma run_pid (calls : list call) (self : LocalSingleton) (p : json) :
  pid (run calls self) = Some p ->
  pid self = Some p
  \/ exists before c after,
       calls = (before ++ c :: after)%list /\ records c (run before self) p.
Proof.
  induction calls as [|c calls IH] using rev_ind; intros H; [now left|].
  rewrite run_snoc in H.
  destruct (step_pid c (run calls self)) as [E | (p' & Hrec & E)].
  - rewrite E in H. destruct (IH H) as [H0 | (before & c' & after & -> & Hrec)];
      [now left | right].
    exists before, c', (after ++ [c])%list. split; [| assumption].
    now rewrite <- app_assoc.
  - right. exists calls, c, []. split; [reflexivity|]. congruence.
Qed.

(** C9: on the singleton as any history of calls has left it, [is_running]
    returns true exactly when an identifier is recorded and the host has a
    process with that identifier; a recorded identifier comes from a start
    of the history that launched the daemon and returned; with no identifier
    recorded the answer is false, not an error; and the query changes
    nothing. *)
Theorem is_running_iff (w0 : World) (k b : value) (kwargs : dict)
  (calls : list call) (w : World) :
  let self := run calls (construct w0 None k b kwargs) in
  (result (is_running w self) = inr true
   <-> exists p, pid self = Some p /\ pid_exists w p = inr true)
  /\ (forall p, pid self = Some p ->
        exists before c after,
          calls = (before ++ c :: after)%list
          /\ records c (run before (construct w0 None k b kwargs)) p)
  /\ (pid self = None -> result (is_running w self) = inr false)
  /\ final (is_running w self) = self.
Proof.
  intros self. repeat split.
  - unfold is_running, bind, get. simpl.
    destruct (pid self) as [p|]; [| discriminate].
    intros H. exists p. split; [reflexivity|].
    destruct (pid_exists w p) as [e|r]; simpl in H; congruence.
  - intros (p & Hp & He). unfold is_running, bind, get. simpl.
    rewrite Hp, He. reflexivity.
  - intros p Hp. apply run_pid in Hp. destruct Hp as [Hp | Hp]; [| exact Hp].
    discriminate.
  - intros Hp. unfold is_running, bind, get. simpl. now rewrite Hp.
  - unfold is_running, bind, get. simpl.
    destruct (pid self) as [p|]; [| reflexivity].
    now destruct (pid_exists w p).
Qed.

(** ** The onlyCommand option *)

(** An assignment at the head of a computation can be done beforehand. *)
Lemma final_bind_modify {A B} f (k1 : unit -> M A) (k2 : A -> M B) self :
  final (bind (bind (modify f) k1) k2 self) = final (bind (k1 tt) k2 (f self)).
Proof.
  unfold bind, modify.
  destruct (k1 tt (f self)) as [s1 t1 [e|a]]; reflexivity.
Qed.

(** What [start] does to the options: it merges the keyword arguments, then
    deletes reserved keys, among them never onlyCommand. *)
Lemma start_options (I : dict -> Prop) (w : World) (kwargs : dict)
  (self : LocalSingleton) :
  I (dict_update (options self) kwargs) ->
  (forall d k, k <> "onlyCommand" -> I d -> I (dict_del d k)) ->
  I (options (final (start w kwargs self))).
Proof.
  intros Hu Hd. unfold start, configure. rewrite final_bind_modify.
  match goal with
  | |- I (options (final (?rest ?merged))) =>
      assert (Hp : preserves (fun s => I (options s)) rest);
        [| exact (Hp merged Hu)]
  end.
  cbv beta. unfold spawn, handshake.
  preserves_steps; apply preserves_modify; intros; simpl; auto;
    apply Hd; auto; discriminate.
Qed.

Lemma start_preserves_options (I : dict -> Prop) (w : World) (kwargs : dict) :
  (forall d, I d -> I (dict_update d kwargs)) ->
  (forall d k, k <> "onlyCommand" -> I d -> I (dict_del d k)) ->
  preserves (fun self => I (options self)) (start w kwargs).
Proof. intros Hu Hd self H. apply start_options; auto. Qed.

Lemma dict_contains_set d k k' v :
  dict_contains d k = true -> dict_contains (dict_set d k' v) k = true.
Proof.
  unfold dict_contains. intros H.
  destruct (string_dec k' k) as [->|Hne].
  - now rewrite dict_get_set_eq.
  - now rewrite dict_get_set_ne.
Qed.

Lemma dict_contains_update kwargs k : forall d,
  dict_contains d k = true -> dict_contains (dict_update d kwargs) k = true.
Proof.
  unfold dict_update.
  induction kwargs as [|[k0 v0] r IH]; intros d H; simpl; auto.
  apply IH. now apply dict_contains_set.
Qed.

Lemma dict_contains_del d k k' :
  k' <> k -> dict_contains d k = true -> dict_contains (dict_del d k') k = true.
Proof. unfold dict_contains. intros Hne. now rewrite dict_get_del_ne. Qed.

(** [start] never deletes the onlyCommand key, however the call ends. *)
Lemma start_keeps_onlyCommand_key (w : World) (kwargs : dict) (self : LocalSingleton) :
  dict_contains (options self) "onlyCommand" = true ->
  dict_contains (options (final (start w kwargs self))) "onlyCommand" = true.
Proof.
  apply (start_preserves_options
           (fun d => dict_contains d "onlyCommand" = true) w kwargs).
  - intros d. apply dict_contains_update.
  - intros d k Hne. now apply dict_contains_del.
Qed.

Lemma start_flagged (w : World) (kwargs : dict) (self : LocalSingleton) :
  NoDup (dict_keys kwargs) ->
  (forall v, dict_get kwargs "onlyCommand" = Some v -> emits_flag v) ->
  flagged (options self) -> flagged (options (final (start w kwargs self))).
Proof.
  intros Hnd Hkw. apply (start_preserves_options flagged w kwargs).
  - intros d (Hd & v & Hv & Hf). split; [now apply dict_update_unique|].
    rewrite dict_get_update by assumption.
    destruct (dict_get kwargs "onlyCommand") as [v'|] eqn:E; eauto.
  - intros d k Hne (Hd & v & Hv & Hf). split; [now apply dict_del_unique|].
    exists v. now rewrite dict_get_del_ne.
Qed.

Lemma step_flagged (c : call) (self : LocalSingleton) :
  keeps_onlyCommand c ->
  initialized self = true /\ flagged (options self) ->
  initialized (step c self) = true /\ flagged (options (step c self)).
Proof.
  intros Hc (Hi & Hf).
  destruct c as [w k b kw | w kw | w | w | w]; simpl.
  - now rewrite (proj2 (construct_again w k b kw self) Hi).
  - destruct Hc as (Hnd & Hkw). rewrite start_initialized.
    split; [assumption | now apply start_flagged].
  - now rewrite stop_final.
  - rewrite enter_final, start_initialized. split; [assumption|].
    destruct Hf as (Hnd & v & Hv & Hfl).
    apply start_flagged; [assumption | | now split; eauto].
    intros v' Hv'. congruence.
  - unfold __exit__. now rewrite stop_final.
Qed.

Lemma run_flagged (calls : list call) : forall self,
  Forall keeps_onlyCommand calls ->
  initialized self = true /\ flagged (options self) ->
  initialized (run calls self) = true /\ flagged (options (run calls self)).
Proof.
  induction calls as [|c r IH]; intros self Hk H; [exact H|].
  inversion Hk; subst. apply IH; [assumption|]. now apply step_flagged.
Qed.

(** *** From the stored option to the command line *)

Lemma add_option_keeps d cmd o t : In t cmd -> In t (add_option d cmd o).
Proof.
  intros H. unfold add_option.
  destruct (dict_get d o) as [[]|]; auto; apply in_or_app; now left.
Qed.

Lemma fold_add_option_keeps d keys t : forall cmd,
  In t cmd -> In t (fold_left (add_option d) keys cmd).
Proof.
  induction keys as [|o r IH]; intros cmd H; simpl; auto.
  apply IH. now apply add_option_keeps.
Qed.

Lemma fold_add_option_tokens d o v t :
  dict_get d o = Some v -> v <> VNone -> In t (__xstr (Some o) v) ->
  forall keys cmd, In o keys -> In t (fold_left (add_option d) keys cmd).
Proof.
  intros Hv Hn Ht. induction keys as [|o' r IH]; intros cmd Hin; [destruct Hin|].
  simpl. destruct (string_dec o' o) as [->|Hne].
  - apply fold_add_option_keeps. unfold add_option. rewrite Hv.
    destruct v; try congruence; apply in_or_app; now right.
  - destruct Hin as [E|Hin]; [congruence|]. now apply IH.
Qed.

Lemma xstr_flag (k : string) (v : value) :
  emits_flag v -> In (VStr ("-" ++ k)) (__xstr (Some k) v).
Proof.
  intros (_ & Hf). unfold __xstr.
  destruct (String.eqb (lower (str v)) "true"); [now left|].
  apply String.eqb_neq in Hf. rewrite Hf. now left.
Qed.

Lemma generate_cmd_flag (w : World) (self : LocalSingleton) :
  stores_onlyCommand self ->
  In (VStr "-onlyCommand") (_generate_cmd w self)
  /\ exists cmd, _generate_stop_cmd w self = inr cmd /\ In (VStr "-onlyCommand") cmd.
Proof.
  intros (v & Hv & Hf).
  assert (H : In (VStr "-onlyCommand") (_generate_cmd w self)).
  { unfold _generate_cmd.
    apply (fold_add_option_tokens (options self) "onlyCommand" v); auto.
    - apply Hf.
    - now apply (xstr_flag "onlyCommand").
    - eapply dict_get_in_keys; eassumption. }
  split; [assumption|].
  destruct (generate_cmd_shape w self) as [post E].
  unfold _generate_stop_cmd. rewrite E in *. simpl.
  eexists; split; [reflexivity|].
  simpl in H. simpl. destruct H as [H|[H|[H|H]]]; auto; discriminate.
Qed.

(** C10, as the code has it: [start] never removes the onlyCommand key from
    the options.  After a call with onlyCommand set to a value that gives a
    flag, as True does, the option is stored with that value, however the
    call ended; from then on, through any later calls that do not replace it
    by a value without a flag, every start command and every stop command
    generated holds the token -onlyCommand. *)
Theorem onlyCommand_stays (w : World) (kwargs : dict) (self : LocalSingleton)
  (v : value) :
  initialized self = true ->
  NoDup (dict_keys (options self)) ->
  NoDup (dict_keys kwargs) ->
  dict_get kwargs "onlyCommand" = Some v ->
  emits_flag v ->
  (forall w0 kwargs0 self0,
      dict_contains (options self0) "onlyCommand" = true ->
      dict_contains (options (final (start w0 kwargs0 self0))) "onlyCommand" = true)
  /\ dict_get (options (final (start w kwargs self))) "onlyCommand" = Some v
  /\ (forall later w',
        Forall keeps_onlyCommand later ->
        In (VStr "-onlyCommand")
          (_generate_cmd w' (run later (final (start w kwargs self))))
        /\ exists cmd,
            _generate_stop_cmd w' (run later (final (start w kwargs self))) = inr cmd
            /\ In (VStr "-onlyCommand") cmd).
Proof.
  intros Hi Hd Hk Hv Hf.
  assert (Hstored : NoDup (dict_keys (options (final (start w kwargs self))))
                    /\ dict_get (options (final (start w kwargs self))) "onlyCommand"
                       = Some v).
  { apply (start_options
             (fun d => NoDup (dict_keys d) /\ dict_get d "onlyCommand" = Some v)).
    - split; [now apply dict_update_unique|].
      rewrite dict_get_update by assumption. now rewrite Hv.
    - intros d k Hne (Hn & Hg). split; [now apply dict_del_unique|].
      now rewrite dict_get_del_ne. }
  destruct Hstored as (Hn & Hg).
  split; [| split].
  - intros w0 kwargs0 self0. apply start_keeps_onlyCommand_key.
  - exact Hg.
  - intros later w' Hl. apply generate_cmd_flag.
    apply (run_flagged later (final (start w kwargs self)) Hl).
    rewrite start_initialized. split; [assumption|].
    split; [assumption|]. now exists v.
Qed.

Lemma onlyCommand_stays_witness :
  dict_get
    (options (final (start connected_host [("onlyCommand", VBool true)]
                       example_singleton))) "onlyCommand" = Some (VBool true)
  /\ In (VStr "-onlyCommand")
       (_generate_cmd connected_host
          (run [Stop connected_host; Start connected_host []; Enter rejected_host]
             (final (start connected_host [("onlyCommand", VBool true)]
                       example_singleton)))).
Proof.
  destruct (onlyCommand_stays connected_host [("onlyCommand", VBool true)]
              example_singleton (VBool true)) as (_ & H1 & H2).
  - reflexivity.
  - simpl. constructor.
  - simpl. constructor; [intros [] | constructor].
  - reflexivity.
  - split; discriminate.
  - split; [exact H1|].
    apply (H2 [Stop connected_host; Start connected_host []; Enter rejected_host]
              connected_host).
    apply Forall_cons; [exact I|].
    apply Forall_cons; [split; [constructor | discriminate]|].
    apply Forall_cons; [exact I | apply Forall_nil].
Defined.

(** C10 as stated fails: after start(onlyCommand=True), a later
    start(onlyCommand=False) keeps the key but replaces its value, and the
    commands generated from then on hold the empty token in place of the
    flag. *)
Lemma onlyCommand_replaced_by_later_start :
  In (VStr "-onlyCommand") (_generate_cmd connected_host dry_run_singleton)
  /\ dict_get (options overridden_singleton) "onlyCommand" = Some (VBool false)
  /\ _generate_cmd connected_host overridden_singleton
     = [ VStr "/opt/BrowserStackLocal"; VStr "-d"; VStr "start"; VStr "-logFile";
         VStr "/home/ci/local.log"; VStr "-k"; VStr "ARGKEY"; VStr "--source";
         VStr "python:1.0.0"; VStr "" ]
  /\ _generate_stop_cmd connected_host overridden_singleton
     = inr [ VStr "/opt/BrowserStackLocal"; VStr "-d"; VStr "stop"; VStr "-logFile";
             VStr "/home/ci/local.log"; VStr "-k"; VStr "ARGKEY"; VStr "--source";
             VStr "python:1.0.0"; VStr "" ]
  /\ ~ In (VStr "-onlyCommand") (_generate_cmd connected_host overridden_singleton).
Proof.
  split; [| split; [| split; [| split]]]; try (vm_compute; reflexivity).
  - vm_compute. intuition.
  - vm_compute. intuition discriminate.
Qed.

(** * Further properties *)

(** ** What [configure] and [spawn] leave behind *)

(** The instance after [configure], case by case. *)
Lemma configure_final (w : World) (kwargs : dict) (self : LocalSingleton) :
  let d := merged kwargs self in
  let s0 := set_options d self in
  let s1 := match dict_get d "key" with
            | Some v => set_options (dict_del d "key") (set_key v s0)
            | None => s0
            end in
  final (configure w kwargs self) =
  match dict_get (options s1) "binarypath" with
  | Some v =>
      let s2 := set_options (dict_del (options s1) "binarypath")
                  (set_binary_path v s1) in
      match dict_get (options s2) "logfile" with
      | Some l => set_options (dict_del (options s2) "logfile")
                    (set_local_logfile_path l s2)
      | None => s2
      end
  | None =>
      match get_binary w with
      | inl _ => s1
      | inr path =>
          let s2 := set_binary_path path s1 in
          match dict_get (options s2) "logfile" with
          | Some l => set_options (dict_del (options s2) "logfile")
                        (set_local_logfile_path l s2)
          | None => s2
          end
      end
  end.
Proof.
  unfold configure, bind, modify, get, ret, emit, lift, raise, merged. simpl.
  set (d := dict_update (options self) kwargs).
  destruct (dict_get d "key") as [vk|]; simpl;
    match goal with
    | |- context [dict_get ?o "binarypath"] =>
        destruct (dict_get o "binarypath") as [vb|]; simpl
    end;
    try (destruct (get_binary w) as [e|path]; simpl; [reflexivity|]);
    match goal with
    | |- context [dict_get ?o "logfile"] =>
        destruct (dict_get o "logfile") as [vl|]; reflexivity
    end.
Qed.

(** A key that is in no dictionary cannot be deleted from it. *)
Lemma dict_del_absent d k : dict_get d k = None -> dict_del d k = d.
Proof.
  induction d as [|[k0 v0] r IH]; simpl; auto.
  destruct (String.eqb k0 k); [discriminate|].
  intros H. now rewrite IH.
Qed.

Lemma without_source_options self :
  options (without_source self) = dict_del (options self) "source".
Proof.
  unfold without_source, dict_contains.
  destruct (dict_get (options self) "source") eqn:E; simpl; auto.
  symmetry. now apply dict_del_absent.
Qed.

(** [spawn], case by case: the command is built once the source option is
    gone; the launch, the wait and the shell line follow in that order, and
    the first of them that raises ends the call. *)
Lemma spawn_cases (w : World) (self : LocalSingleton) :
  let s0 := without_source self in
  let cmd := _generate_cmd w s0 in
  match popen w cmd with
  | Some e => spawn w self = Outcome s0 [EvPopen cmd] (inl e)
  | None =>
      match communicate w cmd with
      | inl e =>
          spawn w self
          = Outcome (set_proc cmd s0) [EvPopen cmd; EvCommunicate cmd] (inl e)
      | inr streams =>
          match local_logfile_path s0 with
          | VStr path =>
              spawn w self
              = Outcome (set_proc cmd s0)
                  [EvPopen cmd; EvCommunicate cmd; EvSystem (truncate_line path)]
                  (inr streams)
          | _ =>
              spawn w self
              = Outcome (set_proc cmd s0) [EvPopen cmd; EvCommunicate cmd]
                  (inl (TypeError "can only concatenate str to str"))
          end
      end
  end.
Proof.
  unfold spawn, without_source, bind, modify, get, ret, emit, lift, raise. simpl.
  destruct (dict_contains (options self) "source"); simpl;
    match goal with
    | |- context [popen w ?c] => destruct (popen w c) as [e|]; simpl
    end; try reflexivity;
    match goal with
    | |- context [communicate w ?c] =>
        destruct (communicate w c) as [e|streams]; simpl
    end; try reflexivity;
    match goal with
    | |- context [match local_logfile_path ?s with _ => _ end] =>
        destruct (local_logfile_path s); reflexivity
    end.
Qed.

(** The handshake logs nothing, or the text it could not parse. *)
Lemma handshake_trace out err self :
  trace (handshake out err self) = []
  \/ exists s, decode (chosen_output out err) = inr s
               /\ trace (handshake out err self) = [EvLogError (LogParseError s)].
Proof.
  unfold handshake, try_except, bind, lift, raise, ret, modify, emit.
  destruct (decode (chosen_output out err)) as [e|s]; simpl.
  { destruct (is_ValueError e); simpl; auto. }
  destruct (loads s) as [e|data] eqn:Hl; simpl.
  { apply loads_error in Hl. subst e. simpl. right. now exists s. }
  left.
  assert (Hty : forall x k e, getitem x k = inl e -> is_ValueError e = false).
  { intros x k e. destruct x; simpl; try (intros H; injection H as <-; reflexivity).
    destruct (jdict_get d k); [discriminate|].
    intros H; injection H as <-; reflexivity. }
  destruct (getitem data "state") as [e|state] eqn:Hs; simpl.
  { now rewrite (Hty _ _ _ Hs). }
  destruct (is_connected state); simpl.
  - destruct (getitem data "pid") as [e|p] eqn:Hp; simpl; auto.
    now rewrite (Hty _ _ _ Hp).
  - destruct (getitem data "message") as [e|m] eqn:Hm; simpl.
    { now rewrite (Hty _ _ _ Hm). }
    destruct (getitem m "message") as [e|t] eqn:Ht; simpl; auto.
    now rewrite (Hty _ _ _ Ht).
Qed.

(** ** The order of what [start] does on the host *)

(** [start] as its three parts in sequence. *)
Lemma start_unfold (w : World) (kwargs : dict) (self : LocalSingleton) :
  start w kwargs self =
  match configure w kwargs self with
  | Outcome s1 t1 (inl e) => Outcome s1 t1 (inl e)
  | Outcome s1 t1 (inr _) =>
      if only_command kwargs then Outcome s1 (t1 ++ []) (inr tt)
      else
        match spawn w s1 with
        | Outcome s2 t2 (inl e) => Outcome s2 (t1 ++ t2) (inl e)
        | Outcome s2 t2 (inr streams) =>
            match handshake (fst streams) (snd streams) s2 with
            | Outcome s3 t3 r => Outcome s3 (t1 ++ t2 ++ t3) r
            end
        end
  end.
Proof.
  unfold start, bind.
  destruct (configure w kwargs self) as [s1 t1 [e|[]]]; [reflexivity|].
  destruct (only_command kwargs); [reflexivity|].
  destruct (spawn w s1) as [s2 t2 [e|streams]]; [reflexivity|].
  now destruct (handshake (fst streams) (snd streams) s2).
Qed.

Lemma configure_trace (w : World) (kwargs : dict) (self : LocalSingleton) :
  trace (configure w kwargs self) = []
  \/ trace (configure w kwargs self) = [EvGetBinary].
Proof.
  pose proof (configure_outcome w kwargs self) as H.
  destruct (dict_get (dict_update (options self) kwargs) "binarypath");
    destruct H as (H1 & H2); auto.
Qed.

(** X2: a call of [start] asks the binary resolver at most once, then
    launches at most one process, waits for it, empties the log file through
    the shell at most once and only after the wait, and logs at most one
    error, the parse error, last of all; it does nothing else on the host. *)
Theorem start_trace_shape (w : World) (kwargs : dict) (self : LocalSingleton) :
  exists pre post,
    trace (start w kwargs self) = (pre ++ post)%list
    /\ (pre = [] \/ pre = [EvGetBinary])
    /\ (post = []
        \/ exists cmd,
             post = [EvPopen cmd]
             \/ post = [EvPopen cmd; EvCommunicate cmd]
             \/ exists path,
                  post = [EvPopen cmd; EvCommunicate cmd;
                          EvSystem (truncate_line path)]
                  \/ exists s,
                       post = [EvPopen cmd; EvCommunicate cmd;
                               EvSystem (truncate_line path);
                               EvLogError (LogParseError s)]).
Proof.
  rewrite start_unfold.
  pose proof (configure_trace w kwargs self) as Hc.
  destruct (configure w kwargs self) as [s1 t1 [e|[]]]; simpl in Hc.
  { exists t1, []. rewrite app_nil_r. auto. }
  destruct (only_command kwargs).
  { exists t1, []. auto. }
  pose proof (spawn_cases w s1) as Hs. cbv zeta in Hs.
  set (cmd := _generate_cmd w (without_source s1)) in *.
  assert (H2 : exists pre post,
             (t1 ++ [EvPopen cmd; EvCommunicate cmd])%list = (pre ++ post)%list
             /\ (pre = [] \/ pre = [EvGetBinary])
             /\ (post = []
                 \/ exists cmd0,
                      post = [EvPopen cmd0]
                      \/ post = [EvPopen cmd0; EvCommunicate cmd0]
                      \/ exists path,
                           post = [EvPopen cmd0; EvCommunicate cmd0;
                                   EvSystem (truncate_line path)]
                           \/ exists s,
                                post = [EvPopen cmd0; EvCommunicate cmd0;
                                        EvSystem (truncate_line path);
                                        EvLogError (LogParseError s)])).
  { exists t1, [EvPopen cmd; EvCommunicate cmd].
    split; [reflexivity | split; [assumption|]].
    right. exists cmd. right. left. reflexivity. }
  destruct (popen w cmd) as [e|].
  { rewrite Hs. exists t1, [EvPopen cmd].
    split; [reflexivity | split; [assumption|]].
    right. exists cmd. left. reflexivity. }
  destruct (communicate w cmd) as [e|streams].
  { rewrite Hs. exact H2. }
  destruct (local_logfile_path (without_source s1)) as [| | |path];
    rewrite Hs; try exact H2.
  pose proof (handshake_trace (fst streams) (snd streams)
                (set_proc cmd (without_source s1))) as Hh.
  destruct (handshake (fst streams) (snd streams) (set_proc cmd (without_source s1)))
    as [s3 t3 r]; simpl in Hh.
  destruct Hh as [-> | (s & _ & ->)].
  - exists t1, [EvPopen cmd; EvCommunicate cmd; EvSystem (truncate_line path)].
    split; [reflexivity | split; [assumption|]].
    right. exists cmd. right. right. exists path. left. reflexivity.
  - exists t1, [EvPopen cmd; EvCommunicate cmd; EvSystem (truncate_line path);
                EvLogError (LogParseError s)].
    split; [reflexivity | split; [assumption|]].
    right. exists cmd. right. right. exists path. right. exists s. reflexivity.
Qed.

Lemma handshake_logfile out err self :
  local_logfile_path (final (handshake out err self)) = local_logfile_path self.
Proof.
  apply (handshake_preserves
           (fun s => local_logfile_path s = local_logfile_path self)); auto.
Qed.

(** X3: once the daemon's output has been read, the log file is emptied
    whatever the handshake says: when a call gets as far as the handshake,
    the log file path is a string, the shell line that empties that file is
    among the things the call did, and the path is still the log file of the
    singleton afterwards, whether the call then returns or raises. *)
Theorem log_emptied_before_handshake (w : World) (kwargs : dict)
  (self : LocalSingleton) (out err : string) :
  reaches_handshake w kwargs self out err ->
  exists path,
    local_logfile_path (final (start w kwargs self)) = VStr path
    /\ In (EvSystem (truncate_line path)) (trace (start w kwargs self)).
Proof.
  intros Hr. rewrite (start_handshake _ _ _ _ _ Hr). simpl.
  destruct Hr as (_ & _ & Hs). unfold before_handshake.
  set (s1 := final (configure w kwargs self)) in *.
  pose proof (spawn_cases w s1) as Hc. cbv zeta in Hc.
  set (cmd := _generate_cmd w (without_source s1)) in *.
  destruct (popen w cmd) as [e|]; [rewrite Hc in Hs; discriminate|].
  destruct (communicate w cmd) as [e|streams]; [rewrite Hc in Hs; discriminate|].
  destruct (local_logfile_path (without_source s1)) as [| | |path] eqn:Hp;
    try (rewrite Hc in Hs; discriminate).
  exists path. rewrite handshake_logfile, Hc. simpl. split.
  - unfold without_source in Hp |- *.
    destruct (dict_contains (options s1) "source"); exact Hp.
  - apply in_or_app. right. simpl. auto.
Qed.

(** On the host that answers with a rejected handshake. *)
Lemma log_emptied_before_handshake_witness :
  exists path,
    local_logfile_path (final (start rejected_host [] example_singleton)) = VStr path
    /\ In (EvSystem (truncate_line path))
         (trace (start rejected_host [] example_singleton)).
Proof.
  apply (log_emptied_before_handshake rejected_host [] example_singleton
           rejected_handshake "").
  repeat split; vm_compute; reflexivity.
Defined.

(** ** stop, seen from the host *)

(** X4: [stop] always has a command to run, the start command with stop at
    index 2, and launching it is the first thing it does; it never asks the
    binary resolver and never touches the log file; when the launch and the
    wait succeed it does nothing more and logs nothing. *)
Theorem stop_launches_stop_cmd (w : World) (self : LocalSingleton) :
  exists cmd rest,
    _generate_stop_cmd w self = inr cmd
    /\ nth_error cmd 2 = Some (VStr "stop")
    /\ trace (stop w self) = EvPopen cmd :: rest
    /\ (forall ev, In ev rest ->
          ev = EvCommunicate cmd \/ exists e, ev = EvLogError (LogStopError e))
    /\ (popen w cmd = None -> (exists streams, communicate w cmd = inr streams) ->
          rest = [EvCommunicate cmd]).
Proof.
  destruct (generate_cmd_shape w self) as [post E].
  assert (Hc : _generate_stop_cmd w self
               = inr (binary_path self :: VStr "-d" :: VStr "stop" :: post)).
  { unfold _generate_stop_cmd. now rewrite E. }
  set (cmd := binary_path self :: VStr "-d" :: VStr "stop" :: post) in *.
  unfold stop, try_except, bind, get, lift, emit, raise, ret. rewrite Hc. simpl.
  destruct (popen w cmd) as [e|] eqn:Hp; simpl.
  { exists cmd, [EvLogError (LogStopError e)]. repeat split; auto.
    - intros ev [<-|[]]. right. now exists e.
    - intros H. congruence. }
  destruct (communicate w cmd) as [e|[out err]] eqn:Hw; simpl.
  - exists cmd, [EvCommunicate cmd; EvLogError (LogStopError e)].
    repeat split; auto.
    + intros ev [<-|[<-|[]]]; [now left | right; now exists e].
    + intros _ (streams & Hs). congruence.
  - exists cmd, [EvCommunicate cmd]. repeat split; auto.
    intros ev [<-|[]]. now left.
Qed.

(** X5: [stop] does not clear the recorded identifier, so it changes
    nothing in what [is_running] reports: with an identifier recorded,
    [is_running] after [stop] is still what the host says of that
    identifier. *)
Theorem is_running_after_stop (w w' : World) (self : LocalSingleton) (p : json) :
  pid self = Some p ->
  result (is_running w (final (stop w' self))) = pid_exists w p
  /\ is_running w (final (stop w' self)) = is_running w self.
Proof.
  intros Hp. rewrite stop_final. split; [| reflexivity].
  unfold is_running, bind, get. simpl. rewrite Hp.
  now destruct (pid_exists w p).
Qed.

(** After a successful start and a stop, on a host where the process 4321
    is still there. *)
Lemma is_running_after_stop_witness :
  result (is_running connected_host (final (stop connected_host started_singleton)))
  = inr true.
Proof.
  apply (proj1 (is_running_after_stop connected_host connected_host
                  started_singleton (JInt 4321) eq_refl)).
Defined.

(** ** The command, token by token *)

(** The tokens the loop of [_generate_cmd] adds for one key. *)
Lemma add_option_tokens d cmd o :
  add_option d cmd o
  = (cmd ++ match dict_get d o with
            | Some v => option_tokens (o, v)
            | None => []
            end)%list.
Proof.
  unfold add_option, option_tokens.
  destruct (dict_get d o) as [[]|]; simpl; auto; now rewrite app_nil_r.
Qed.

Lemma fold_add_option_flat_map d keys : forall cmd,
  fold_left (add_option d) keys cmd
  = (cmd ++ flat_map (fun o => match dict_get d o with
                               | Some v => option_tokens (o, v)
                               | None => []
                               end) keys)%list.
Proof.
  induction keys as [|o r IH]; intros cmd; simpl.
  - now rewrite app_nil_r.
  - now rewrite IH, add_option_tokens, <- app_assoc.
Qed.

(** In a dictionary without repeated keys, a stored pair is what the lookup
    of its key finds. *)
Lemma dict_get_in_unique d k v :
  NoDup (dict_keys d) -> In (k, v) d -> dict_get d k = Some v.
Proof.
  unfold dict_keys. induction d as [|[k0 v0] r IH]; simpl; intros Hn Hin; [easy|].
  inversion Hn as [|? ? Hnotin Hr]; subst.
  destruct Hin as [E|Hin].
  - injection E as -> ->. now rewrite String.eqb_refl.
  - destruct (String.eqb k0 k) eqn:E; [| now apply IH].
    apply String.eqb_eq in E. subst k0. exfalso. apply Hnotin.
    change k with (fst (k, v)). now apply in_map.
Qed.

Lemma flat_map_own_keys (d : dict) : forall pairs,
  (forall k v, In (k, v) pairs -> dict_get d k = Some v) ->
  flat_map (fun o => match dict_get d o with
                     | Some v => option_tokens (o, v)
                     | None => []
                     end) (dict_keys pairs)
  = flat_map option_tokens pairs.
Proof.
  induction pairs as [|[k v] r IH]; intros H; simpl; [reflexivity|].
  rewrite (H k v) by now left.
  f_equal. apply IH. intros k' v' Hin. apply H. now right.
Qed.

(** X6: the start command is its nine fixed tokens (the binary, -d, start,
    -logFile and the log file, -k and the key, --source and python: with the
    package version) followed by the tokens of the stored options in the order
    in which the options were first set; an option whose value is None adds
    nothing. *)
Theorem generate_cmd_tokens (w : World) (self : LocalSingleton) :
  NoDup (dict_keys (options self)) ->
  _generate_cmd w self
  = (cmd_head w self ++ flat_map option_tokens (options self))%list.
Proof.
  intros Hn. unfold _generate_cmd. rewrite fold_add_option_flat_map.
  rewrite flat_map_own_keys; [reflexivity|].
  intros k v. now apply dict_get_in_unique.
Qed.

Lemma generate_cmd_tokens_witness :
  _generate_cmd connected_host
    (construct connected_host None (VStr "ARGKEY") VNone
       [("forcelocal", VBool true); ("proxyHost", VNone);
        ("localIdentifier", VStr "ci-7"); ("verbose", VStr "false")])
  = [ VNone; VStr "-d"; VStr "start"; VStr "-logFile";
      VStr "/home/ci/local.log"; VStr "-k"; VStr "ARGKEY"; VStr "--source";
      VStr "python:1.0.0";
      VStr "-forcelocal"; VStr "-localIdentifier"; VStr "ci-7"; VStr "" ].
Proof.
  apply (generate_cmd_tokens connected_host
           (construct connected_host None (VStr "ARGKEY") VNone
              [("forcelocal", VBool true); ("proxyHost", VNone);
               ("localIdentifier", VStr "ci-7"); ("verbose", VStr "false")])).
  simpl. repeat constructor; simpl; intuition discriminate.
Defined.

Lemma xstr_length (k : string) (v : value) :
  1 <= length (__xstr (Some k) v) <= 2.
Proof.
  unfold __xstr.
  destruct (String.eqb (lower (str v)) "true"); [simpl; lia|].
  destruct (String.eqb (lower (str v)) "false"); simpl; lia.
Qed.

Lemma option_tokens_length kv : length (option_tokens kv) <= 2.
Proof.
  destruct kv as [k v]. unfold option_tokens. cbn [fst snd].
  destruct v; [simpl; lia | | |]; apply xstr_length.
Qed.

(** X7: a start command has at least its nine fixed tokens and at most two
    more for each stored option, and the stop command has as many tokens as
    the start command. *)
Theorem generate_cmd_length (w : World) (self : LocalSingleton) :
  9 <= length (_generate_cmd w self) <= 9 + 2 * length (options self)
  /\ exists cmd, _generate_stop_cmd w self = inr cmd
                 /\ length cmd = length (_generate_cmd w self).
Proof.
  split.
  - unfold _generate_cmd. rewrite fold_add_option_flat_map, length_app.
    cbn [length].
    assert (H : forall keys,
               length (flat_map (fun o => match dict_get (options self) o with
                                          | Some v => option_tokens (o, v)
                                          | None => []
                                          end) keys) <= 2 * length keys).
    { induction keys as [|o r IH]; simpl; [lia|]. rewrite length_app.
      destruct (dict_get (options self) o) as [v|].
      - pose proof (option_tokens_length (o, v)). lia.
      - simpl. lia. }
    specialize (H (dict_keys (options self))).
    unfold dict_keys in *. rewrite length_map in H. lia.
  - destruct (generate_cmd_shape w self) as [post E].
    unfold _generate_stop_cmd. rewrite E. simpl. eauto.
Qed.

(** ** Construction happens once *)

Lemma step_initialized (c : call) (self : LocalSingleton) :
  initialized self = true -> initialized (step c self) = true.
Proof.
  intros Hi. destruct c as [w k b kw | w kw | w | w | w]; simpl.
  - now rewrite (proj2 (construct_again w k b kw self) Hi).
  - now rewrite start_initialized.
  - now rewrite stop_final.
  - now rewrite enter_final, start_initialized.
  - unfold __exit__. now rewrite stop_final.
Qed.

Lemma run_initialized (calls : list call) : forall self,
  initialized self = true -> initialized (run calls self) = true.
Proof.
  induction calls as [|c r IH]; intros self Hi; [exact Hi|].
  apply IH. now apply step_initialized.
Qed.

(** X8: the singleton is constructed once.  After the first construction and
    any calls made since, constructing it again, with whatever arguments and
    on whatever host, returns the instance with every field as it was: the
    new key, binary path and options are ignored. *)
Theorem construct_only_once (w0 : World) (k0 b0 : value) (kwargs0 : dict)
  (calls : list call) (w : World) (k b : value) (kwargs : dict) :
  construct w (Some (run calls (construct w0 None k0 b0 kwargs0))) k b kwargs
  = run calls (construct w0 None k0 b0 kwargs0).
Proof.
  apply construct_again. apply run_initialized. reflexivity.
Qed.

(** ** What [start] does with its keyword arguments *)

(** What [configure] has established when it ends, returned or raised. *)
Lemma configure_facts (w : World) (kwargs : dict) (self : LocalSingleton) :
  let d := merged kwargs self in
  let c := final (configure w kwargs self) in
  dict_get (options c) "key" = None
  /\ dict_get (options c) "binarypath" = None
  /\ key c = match dict_get d "key" with Some v => v | None => key self end
  /\ binary_path c
     = match dict_get d "binarypath" with
       | Some v => v
       | None => match get_binary w with
                 | inr path => path
                 | inl _ => binary_path self
                 end
       end
  /\ (result (configure w kwargs self) = inr tt ->
      dict_get (options c) "logfile" = None
      /\ local_logfile_path c
         = match dict_get d "logfile" with
           | Some v => v
           | None => local_logfile_path self
           end)
  /\ (forall k, k <> "key" -> k <> "binarypath" -> k <> "logfile" ->
      dict_get (options c) k = dict_get d k)
  /\ (NoDup (dict_keys d) -> NoDup (dict_keys (options c)))
  /\ pid c = pid self /\ proc c = proc self.
Proof.
  intros d c.
  pose proof (configure_outcome w kwargs self) as Ho. fold (merged kwargs self) in Ho.
  fold d in Ho.
  assert (Ec := configure_final w kwargs self). cbv zeta in Ec. fold d c in Ec.
  destruct (dict_get d "key") as [vk|] eqn:Ek; simpl in Ec;
    rewrite ?dict_get_del_ne in Ec by discriminate;
    (destruct (dict_get d "binarypath") as [vb|] eqn:Eb; simpl in Ec;
     [| destruct (get_binary w) as [e|path] eqn:Eg; simpl in Ec ]);
    rewrite ?dict_get_del_ne in Ec by discriminate;
    try (destruct (dict_get d "logfile") as [vl|] eqn:El; simpl in Ec);
    rewrite Ec; simpl;
    repeat match goal with
    | |- _ /\ _ => split
    | |- _ -> _ /\ _ => intros ?; split
    end;
    intros;
    repeat first [ rewrite dict_get_del_eq
                 | rewrite dict_get_del_ne by congruence ];
    auto using dict_del_unique;
    try (destruct Ho as (_ & Ho); congruence).
Qed.

(** A call that ends in [configure], because the resolver raised or because
    it is a dry run, has done what [configure] did and no more. *)
Lemma start_stops_early (w : World) (kwargs : dict) (self : LocalSingleton) :
  (exists e, result (configure w kwargs self) = inl e) \/ only_command kwargs = true ->
  final (start w kwargs self) = final (configure w kwargs self)
  /\ trace (start w kwargs self) = trace (configure w kwargs self).
Proof.
  intros H. rewrite start_unfold.
  destruct (configure w kwargs self) as [s1 t1 [e|[]]]; simpl in *; auto.
  destruct H as [(e & H) | ->]; [discriminate|].
  simpl. now rewrite app_nil_r.
Qed.

(** A call that goes on after [configure] launches the command built from
    the configured instance without its source option; what follows on the
    host is the wait, the shell line and the log, and the instance ends as
    that instance, with the process handle and then the identifier set when
    the call got that far. *)
Lemma start_launches (w : World) (kwargs : dict) (self : LocalSingleton) :
  only_command kwargs = false ->
  result (configure w kwargs self) = inr tt ->
  let s := without_source (final (configure w kwargs self)) in
  let cmd := _generate_cmd w s in
  exists rest,
    trace (start w kwargs self)
    = (trace (configure w kwargs self) ++ EvPopen cmd :: rest)%list
    /\ (forall ev, In ev rest ->
          ev = EvCommunicate cmd
          \/ (exists line, ev = EvSystem line)
          \/ (exists r, ev = EvLogError r))
    /\ (final (start w kwargs self) = s
        \/ final (start w kwargs self) = set_proc cmd s
        \/ exists p, final (start w kwargs self) = set_pid p (set_proc cmd s)).
Proof.
  intros Hoc Hc. rewrite start_unfold, Hoc.
  destruct (configure w kwargs self) as [s1 t1 r1]; simpl in *; subst r1.
  pose proof (spawn_cases w s1) as Hs. cbv zeta in Hs.
  set (cmd := _generate_cmd w (without_source s1)) in *.
  destruct (popen w cmd) as [e|].
  { rewrite Hs. exists []. simpl. repeat split; auto. intros ev []. }
  assert (H2 : forall ev, In ev [EvCommunicate cmd] ->
            ev = EvCommunicate cmd
            \/ (exists line, ev = EvSystem line)
            \/ (exists r, ev = EvLogError r)).
  { intros ev [<-|[]]. now left. }
  destruct (communicate w cmd) as [e|streams].
  { rewrite Hs. exists [EvCommunicate cmd]. simpl. repeat split; auto. }
  destruct (local_logfile_path (without_source s1)) as [| | |path];
    rewrite Hs; try (exists [EvCommunicate cmd]; simpl; repeat split; now auto).
  set (s2 := set_proc cmd (without_source s1)).
  pose proof (handshake_trace (fst streams) (snd streams) s2) as Ht.
  pose proof (handshake_cases (fst streams) (snd streams) s2) as Hf.
  destruct (handshake (fst streams) (snd streams) s2) as [s3 t3 r3]; simpl in *.
  exists ([EvCommunicate cmd; EvSystem (truncate_line path)] ++ t3)%list.
  split; [reflexivity|]. split.
  - intros ev Hin. simpl in Hin.
    destruct Hin as [<-|[<-|Hin]]; [now left | right; left; eauto |].
    destruct Ht as [-> | (s & _ & ->)]; [destruct Hin|].
    destruct Hin as [<-|[]]. right. right. eauto.
  - destruct Hf as [(s & data & p & _ & _ & _ & _ & _ & ->) | (e & _ & ->)]; eauto.
Qed.

(** A property of the configured instance that neither the dropping of the
    source option, nor the process handle, nor the identifier touches holds
    of the instance when [start] ends. *)
Lemma start_after_configure (I : LocalSingleton -> Prop) (w : World)
  (kwargs : dict) (self : LocalSingleton) :
  I (final (configure w kwargs self)) ->
  (forall s, I s -> I (without_source s)) ->
  (forall c s, I s -> I (set_proc c s)) ->
  (forall p s, I s -> I (set_pid p s)) ->
  I (final (start w kwargs self)).
Proof.
  intros Hc Hw Hp Hi.
  destruct (only_command kwargs) eqn:Hoc.
  { now rewrite (proj1 (start_stops_early w kwargs self (or_intror Hoc))). }
  destruct (result (configure w kwargs self)) as [e|[]] eqn:Hr.
  { rewrite (proj1 (start_stops_early w kwargs self
                      (or_introl (ex_intro _ e Hr)))). exact Hc. }
  destruct (start_launches w kwargs self Hoc Hr) as (rest & _ & _ & Hf).
  destruct Hf as [-> | [-> | (p & ->)]]; auto.
Qed.

Lemma without_source_get (s : LocalSingleton) (k : string) :
  k <> "source" ->
  dict_get (options (without_source s)) k = dict_get (options s) k.
Proof.
  intros Hne. rewrite without_source_options. apply dict_get_del_ne. congruence.
Qed.

(** X9: keyword arguments of [start] overwrite stored options and leave the
    others alone: for a key that is not one of key, binarypath, logfile and
    source, the option stored after the call is the argument when one was
    passed and the option stored before otherwise, however the call ends. *)
Theorem start_merges_options (w : World) (kwargs : dict) (self : LocalSingleton)
  (k : string) :
  NoDup (dict_keys kwargs) ->
  k <> "key" -> k <> "binarypath" -> k <> "logfile" -> k <> "source" ->
  dict_get (options (final (start w kwargs self))) k
  = match dict_get kwargs k with
    | Some v => Some v
    | None => dict_get (options self) k
    end.
Proof.
  intros Hn H1 H2 H3 H4.
  rewrite <- (dict_get_update kwargs k (options self) Hn).
  apply (start_after_configure
           (fun s => dict_get (options s) k
                     = dict_get (dict_update (options self) kwargs) k)); auto.
  - now apply (configure_facts w kwargs self).
  - intros s Hs. now rewrite without_source_get.
Qed.

(** A start that raises in the handshake has still stored its arguments. *)
Lemma start_merges_options_witness :
  dict_get (options (final (start rejected_host
                              [("forcelocal", VBool true); ("key", VStr "K2")]
                              example_singleton))) "forcelocal"
  = Some (VBool true).
Proof.
  apply (start_merges_options rejected_host
           [("forcelocal", VBool true); ("key", VStr "K2")] example_singleton
           "forcelocal"); try discriminate.
  simpl. repeat constructor; simpl; intuition discriminate.
Defined.

(** The fields [configure] sets are not touched by the rest of [start]. *)
Lemma start_keeps_configured (w : World) (kwargs : dict) (self : LocalSingleton) :
  let c := final (configure w kwargs self) in
  let self' := final (start w kwargs self) in
  key self' = key c
  /\ binary_path self' = binary_path c
  /\ local_logfile_path self' = local_logfile_path c
  /\ (forall k, k <> "source" -> dict_get (options self') k = dict_get (options c) k).
Proof.
  intros c self'. subst self'.
  apply (start_after_configure
           (fun s => key s = key c /\ binary_path s = binary_path c
                     /\ local_logfile_path s = local_logfile_path c
                     /\ forall k, k <> "source" ->
                          dict_get (options s) k = dict_get (options c) k));
    auto.
  intros s (H1 & H2 & H3 & H4).
  assert (E : key (without_source s) = key s
              /\ binary_path (without_source s) = binary_path s
              /\ local_logfile_path (without_source s) = local_logfile_path s).
  { unfold without_source. destruct (dict_contains (options s) "source"); auto. }
  destruct E as (-> & -> & ->). repeat split; auto.
  intros k Hk. rewrite without_source_get by assumption. auto.
Qed.

Lemma start_trace_prefix (w : World) (kwargs : dict) (self : LocalSingleton) :
  exists rest,
    trace (start w kwargs self) = (trace (configure w kwargs self) ++ rest)%list
    /\ ~ In EvGetBinary rest.
Proof.
  destruct (only_command kwargs) eqn:Hoc.
  { exists []. rewrite (proj2 (start_stops_early w kwargs self (or_intror Hoc))).
    rewrite app_nil_r. auto. }
  destruct (result (configure w kwargs self)) as [e|[]] eqn:Hr.
  { exists [].
    rewrite (proj2 (start_stops_early w kwargs self (or_introl (ex_intro _ e Hr)))).
    rewrite app_nil_r. auto. }
  destruct (start_launches w kwargs self Hoc Hr) as (rest & Ht & Hrest & _).
  eexists. split; [exact Ht|].
  intros [H|H]; [discriminate|].
  destruct (Hrest _ H) as [E | [(l & E) | (r & E)]]; discriminate.
Qed.

(** X10: [start] moves the reserved options key and binarypath out of the
    options and into their fields, however the call ends: neither is among
    the options afterwards; the key field is the key option of the merged
    options when there is one and is unchanged otherwise; a binarypath
    option becomes the binary path and the resolver is not asked.  When the
    call gets past the resolver the same holds of logfile and the log file
    path. *)
Theorem start_moves_reserved_options (w : World) (kwargs : dict)
  (self : LocalSingleton) :
  let d := merged kwargs self in
  let self' := final (start w kwargs self) in
  dict_get (options self') "key" = None
  /\ dict_get (options self') "binarypath" = None
  /\ key self' = match dict_get d "key" with Some v => v | None => key self end
  /\ (forall v, dict_get d "binarypath" = Some v ->
        binary_path self' = v /\ ~ In EvGetBinary (trace (start w kwargs self)))
  /\ ((exists v, dict_get d "binarypath" = Some v)
        \/ (exists path, get_binary w = inr path) ->
        dict_get (options self') "logfile" = None
        /\ local_logfile_path self'
           = match dict_get d "logfile" with
             | Some v => v
             | None => local_logfile_path self
             end).
Proof.
  intros d self'.
  assert (Hpast : (exists v, dict_get d "binarypath" = Some v)
                  \/ (exists path, get_binary w = inr path) ->
                  result (configure w kwargs self) = inr tt).
  { pose proof (configure_outcome w kwargs self) as Ho.
    fold (merged kwargs self) in Ho. fold d in Ho.
    intros [(v & Hv) | (path & Hp)].
    - rewrite Hv in Ho. apply Ho.
    - destruct (dict_get d "binarypath"); [apply Ho|].
      destruct Ho as (_ & ->). now rewrite Hp. }
  destruct (configure_facts w kwargs self)
    as (F1 & F2 & F3 & F4 & F5 & _). fold d in F3, F4, F5.
  destruct (start_keeps_configured w kwargs self) as (K1 & K2 & K3 & K4).
  fold self' in K1, K2, K3, K4.
  split; [| split; [| split; [| split]]].
  - rewrite K4 by discriminate. exact F1.
  - rewrite K4 by discriminate. exact F2.
  - now rewrite K1.
  - intros v Hv. split.
    + rewrite K2, F4. now rewrite Hv.
    + destruct (start_trace_prefix w kwargs self) as (rest & -> & Hrest).
      pose proof (configure_outcome w kwargs self) as Ho.
      fold (merged kwargs self) in Ho. fold d in Ho. rewrite Hv in Ho.
      destruct Ho as (_ & ->). exact Hrest.
  - intros Hr. destruct (F5 (Hpast Hr)) as (L1 & L2). split.
    + rewrite K4 by discriminate. exact L1.
    + now rewrite K3.
Qed.

(** X11: without a binarypath option the binary path comes from the resolver,
    whatever binary path the singleton held, also the one given at
    construction: the resolver is asked first and once; the path it returns
    becomes the binary path; when it raises, [start] raises the same error
    having done nothing else, and the binary path, the process handle and
    the identifier are as before. *)
Theorem start_asks_resolver (w : World) (kwargs : dict) (self : LocalSingleton) :
  dict_get (merged kwargs self) "binarypath" = None ->
  (exists rest, trace (start w kwargs self) = EvGetBinary :: rest
                /\ ~ In EvGetBinary rest)
  /\ (forall path, get_binary w = inr path ->
        binary_path (final (start w kwargs self)) = path)
  /\ (forall e, get_binary w = inl e ->
        result (start w kwargs self) = inl e
        /\ trace (start w kwargs self) = [EvGetBinary]
        /\ binary_path (final (start w kwargs self)) = binary_path self
        /\ proc (final (start w kwargs self)) = proc self
        /\ pid (final (start w kwargs self)) = pid self).
Proof.
  intros Hb.
  pose proof (configure_outcome w kwargs self) as Ho.
  fold (merged kwargs self) in Ho. rewrite Hb in Ho. destruct Ho as (Ht & Hr).
  destruct (configure_facts w kwargs self)
    as (_ & _ & _ & F4 & _ & _ & _ & F7 & F8).
  rewrite Hb in F4.
  destruct (start_keeps_configured w kwargs self) as (_ & K2 & _ & _).
  split; [| split].
  - destruct (start_trace_prefix w kwargs self) as (rest & -> & Hrest).
    rewrite Ht. now exists rest.
  - intros path Hp. rewrite K2, F4. now rewrite Hp.
  - intros e He. rewrite He in Hr, F4.
    destruct (start_stops_early w kwargs self (or_introl (ex_intro _ e Hr)))
      as (Ef & Et).
    rewrite Ef, Et. repeat split; auto.
    unfold start, bind.
    destruct (configure w kwargs self) as [s1 t1 r1]; simpl in *. now subst r1.
Qed.

(** A singleton constructed with a binary path of its own. *)
Lemma start_asks_resolver_witness :
  binary_path (construct connected_host None (VStr "K") (VStr "/custom/bin") [])
  = VStr "/custom/bin"
  /\ binary_path
       (final (start connected_host []
                 (construct connected_host None (VStr "K") (VStr "/custom/bin") [])))
     = VStr "/opt/BrowserStackLocal".
Proof.
  split; [reflexivity|].
  apply (proj1 (proj2 (start_asks_resolver connected_host []
                         (construct connected_host None (VStr "K")
                            (VStr "/custom/bin") []) eq_refl))).
  reflexivity.
Defined.

(** X12: a binarypath argument serves one call only.  After any call of
    [start], whatever its arguments and however it ended, a later call
    without a binarypath argument asks the resolver again, first of all, and
    the path the resolver returns replaces the binary path. *)
Theorem binarypath_serves_one_call (w1 w2 : World) (kwargs1 kwargs2 : dict)
  (self : LocalSingleton) :
  NoDup (dict_keys kwargs2) ->
  dict_get kwargs2 "binarypath" = None ->
  let self1 := final (start w1 kwargs1 self) in
  (exists rest, trace (start w2 kwargs2 self1) = EvGetBinary :: rest)
  /\ (forall path, get_binary w2 = inr path ->
        binary_path (final (start w2 kwargs2 self1)) = path).
Proof.
  intros Hn Hk self1.
  assert (Hb : dict_get (merged kwargs2 self1) "binarypath" = None).
  { unfold merged. rewrite dict_get_update by assumption. rewrite Hk.
    destruct (configure_facts w1 kwargs1 self) as (_ & F2 & _).
    destruct (start_keeps_configured w1 kwargs1 self) as (_ & _ & _ & K4).
    unfold self1. rewrite K4 by discriminate. exact F2. }
  pose proof (configure_outcome w2 kwargs2 self1) as Ho.
  fold (merged kwargs2 self1) in Ho. rewrite Hb in Ho. destruct Ho as (Ht & _).
  destruct (configure_facts w2 kwargs2 self1) as (_ & _ & _ & F4 & _).
  rewrite Hb in F4.
  destruct (start_keeps_configured w2 kwargs2 self1) as (_ & K2 & _ & _).
  split.
  - destruct (start_trace_prefix w2 kwargs2 self1) as (rest & -> & _).
    rewrite Ht. now exists rest.
  - intros path Hp. rewrite K2, F4. now rewrite Hp.
Qed.

(** A first start with a binarypath argument, a second without. *)
Lemma binarypath_serves_one_call_witness :
  binary_path (final (start connected_host [("binarypath", VStr "/custom/bin")]
                        example_singleton)) = VStr "/custom/bin"
  /\ binary_path
       (final (start connected_host []
                 (final (start connected_host [("binarypath", VStr "/custom/bin")]
                           example_singleton))))
     = VStr "/opt/BrowserStackLocal".
Proof.
  split; [vm_compute; reflexivity|].
  apply (proj2 (binarypath_serves_one_call connected_host connected_host
                  [("binarypath", VStr "/custom/bin")] [] example_singleton
                  (NoDup_nil _) eq_refl)).
  reflexivity.
Defined.

(** X13: the command that [start] launches carries none of the reserved
    options as a flag of its own.  It is the command of an instance that
    holds no key, binarypath, logfile or source option, holds every other
    option of the merged options with its value, and has the key, the binary
    path and the log file path that the singleton has when the call ends. *)
Theorem launched_command (w : World) (kwargs : dict) (self : LocalSingleton)
  (cmd : list value) :
  In (EvPopen cmd) (trace (start w kwargs self)) ->
  exists s,
    cmd = _generate_cmd w s
    /\ (forall k, In k ["key"; "binarypath"; "logfile"; "source"] ->
          dict_get (options s) k = None)
    /\ (forall k, ~ In k ["key"; "binarypath"; "logfile"; "source"] ->
          dict_get (options s) k = dict_get (merged kwargs self) k)
    /\ key s = key (final (start w kwargs self))
    /\ binary_path s = binary_path (final (start w kwargs self))
    /\ local_logfile_path s = local_logfile_path (final (start w kwargs self)).
Proof.
  intros Hin.
  pose proof (configure_trace w kwargs self) as Hct.
  assert (Hgo : only_command kwargs = false
                /\ result (configure w kwargs self) = inr tt).
  { destruct (only_command kwargs) eqn:Hoc.
    - rewrite (proj2 (start_stops_early w kwargs self (or_intror Hoc))) in Hin.
      destruct Hct as [E|E]; rewrite E in Hin; simpl in Hin;
        intuition discriminate.
    - destruct (result (configure w kwargs self)) as [e|[]] eqn:Hr; auto.
      rewrite (proj2 (start_stops_early w kwargs self
                        (or_introl (ex_intro _ e Hr)))) in Hin.
      destruct Hct as [E|E]; rewrite E in Hin; simpl in Hin;
        intuition discriminate. }
  destruct Hgo as (Hoc & Hr).
  destruct (start_launches w kwargs self Hoc Hr) as (rest & Ht & Hrest & _).
  set (c := final (configure w kwargs self)) in *.
  exists (without_source c).
  destruct (configure_facts w kwargs self)
    as (F1 & F2 & _ & _ & F5 & F6 & _). fold c in F1, F2, F5, F6.
  destruct (F5 Hr) as (F3 & _).
  destruct (start_keeps_configured w kwargs self) as (K1 & K2 & K3 & _).
  fold c in K1, K2, K3.
  split; [| split; [| split; [| split; [| split]]]].
  - rewrite Ht in Hin. apply in_app_or in Hin. destruct Hin as [Hin|Hin].
    + destruct Hct as [E|E]; fold c in E; rewrite E in Hin; simpl in Hin;
        intuition discriminate.
    + destruct Hin as [E|Hin]; [now injection E|].
      destruct (Hrest _ Hin) as [E | [(l & E) | (r & E)]]; discriminate.
  - intros k Hk. rewrite without_source_options.
    simpl in Hk. destruct Hk as [<-|[<-|[<-|[<-|[]]]]];
      rewrite ?dict_get_del_eq; rewrite ?dict_get_del_ne by discriminate; auto.
  - intros k Hk. rewrite without_source_get by (intros ->; apply Hk; simpl; auto).
    apply F6; intros ->; apply Hk; simpl; auto.
  - rewrite K1. unfold without_source.
    now destruct (dict_contains (options c) "source").
  - rewrite K2. unfold without_source.
    now destruct (dict_contains (options c) "source").
  - rewrite K3. unfold without_source.
    now destruct (dict_contains (options c) "source").
Qed.

Lemma launched_command_witness :
  exists s,
    [ VStr "/custom/bin"; VStr "-d"; VStr "start"; VStr "-logFile";
      VStr "/tmp/bs.log"; VStr "-k"; VStr "K2"; VStr "--source";
      VStr "python:1.0.0"; VStr "-forcelocal" ] = _generate_cmd connected_host s
    /\ (forall k, In k ["key"; "binarypath"; "logfile"; "source"] ->
          dict_get (options s) k = None).
Proof.
  destruct (launched_command connected_host
              [("key", VStr "K2"); ("binarypath", VStr "/custom/bin");
               ("logfile", VStr "/tmp/bs.log"); ("source", VStr "x");
               ("forcelocal", VBool true)]
              example_singleton
              [ VStr "/custom/bin"; VStr "-d"; VStr "start"; VStr "-logFile";
                VStr "/tmp/bs.log"; VStr "-k"; VStr "K2"; VStr "--source";
                VStr "python:1.0.0"; VStr "-forcelocal" ])
    as (s & H1 & H2 & _).
  - vm_compute. auto.
  - exists s. split; assumption.
Defined.

(** ** Handshakes of another shape *)

(** An exception of a lookup in the decoded handshake is no [ValueError]:
    the handler of [start] lets it through. *)
Lemma getitem_error_passes (x : json) (k : string) (e : exn) :
  getitem x k = inl e -> is_ValueError e = false.
Proof.
  destruct x; simpl; try (intros H; injection H as <-; reflexivity).
  destruct (jdict_get d k); [discriminate|].
  intros H; injection H as <-; reflexivity.
Qed.

(** The handshake when a lookup of the state, of the pid or of the message
    raises: the call raises that exception, nothing is logged and the
    instance is as it was. *)
Lemma handshake_lookup_raises out err self s data e :
  decode (chosen_output out err) = inr s -> loads s = inr data ->
  getitem data "state" = inl e
  \/ (getitem data "state" = inr (JStr "connected") /\ getitem data "pid" = inl e)
  \/ (exists state, getitem data "state" = inr state /\ state <> JStr "connected"
        /\ (getitem data "message" = inl e
            \/ exists m, getitem data "message" = inr m
                         /\ getitem m "message" = inl e)) ->
  handshake out err self = Outcome self [] (inl e).
Proof.
  intros Hd Hl H.
  unfold handshake, try_except, bind. rewrite Hd. simpl. rewrite Hl. simpl.
  destruct H as [Hs | [(Hs & Hp) | (state & Hs & Hne & H)]].
  - rewrite Hs. simpl. now rewrite (getitem_error_passes _ _ _ Hs).
  - rewrite Hs. simpl. rewrite Hp. simpl.
    now rewrite (getitem_error_passes _ _ _ Hp).
  - rewrite Hs. simpl. rewrite (is_connected_false _ Hne). simpl.
    destruct H as [Hm | (m & Hm & Ht)].
    + rewrite Hm. simpl. now rewrite (getitem_error_passes _ _ _ Hm).
    + rewrite Hm. simpl. rewrite Ht. simpl.
      now rewrite (getitem_error_passes _ _ _ Ht).
Qed.

Lemma start_lookup_raises w kwargs self out err s data e :
  reaches_handshake w kwargs self out err ->
  decode (chosen_output out err) = inr s -> loads s = inr data ->
  getitem data "state" = inl e
  \/ (getitem data "state" = inr (JStr "connected") /\ getitem data "pid" = inl e)
  \/ (exists state, getitem data "state" = inr state /\ state <> JStr "connected"
        /\ (getitem data "message" = inl e
            \/ exists m, getitem data "message" = inr m
                         /\ getitem m "message" = inl e)) ->
  result (start w kwargs self) = inl e
  /\ pid (final (start w kwargs self)) = pid self.
Proof.
  intros Hr Hd Hl H.
  rewrite (start_handshake _ _ _ _ _ Hr).
  rewrite (handshake_lookup_raises _ _ _ _ _ _ Hd Hl H). simpl.
  split; [reflexivity|]. unfold before_handshake.
  now rewrite spawn_pid, configure_pid.
Qed.

(** X14: a handshake that is a JSON object but lacks a field [start] reads
    makes [start] raise [KeyError] for that field, not
    [BrowserStackLocalError]: state when there is no state; pid when the
    state is connected and there is no pid; message when the state is not
    connected and the object, or the object under message, has no message.
    The identifier field is left as it was. *)
Theorem handshake_missing_field (w : World) (kwargs : dict)
  (self : LocalSingleton) (out err s : string) (d : list (string * json)) :
  reaches_handshake w kwargs self out err ->
  decode (chosen_output out err) = inr s ->
  loads s = inr (JDict d) ->
  (jdict_get d "state" = None ->
     result (start w kwargs self) = inl (KeyError "state")
     /\ pid (final (start w kwargs self)) = pid self)
  /\ (jdict_get d "state" = Some (JStr "connected") -> jdict_get d "pid" = None ->
     result (start w kwargs self) = inl (KeyError "pid")
     /\ pid (final (start w kwargs self)) = pid self)
  /\ (forall state, jdict_get d "state" = Some state -> state <> JStr "connected" ->
     jdict_get d "message" = None ->
     result (start w kwargs self) = inl (KeyError "message")
     /\ pid (final (start w kwargs self)) = pid self)
  /\ (forall state m, jdict_get d "state" = Some state ->
     state <> JStr "connected" ->
     jdict_get d "message" = Some (JDict m) -> jdict_get m "message" = None ->
     result (start w kwargs self) = inl (KeyError "message")
     /\ pid (final (start w kwargs self)) = pid self).
Proof.
  intros Hr Hd Hl. split; [| split; [| split]].
  - intros Hs. apply (start_lookup_raises _ _ _ _ _ _ _ _ Hr Hd Hl).
    left. simpl. now rewrite Hs.
  - intros Hs Hp. apply (start_lookup_raises _ _ _ _ _ _ _ _ Hr Hd Hl).
    right. left. simpl. rewrite Hs, Hp. auto.
  - intros state Hs Hne Hm. apply (start_lookup_raises _ _ _ _ _ _ _ _ Hr Hd Hl).
    right. right. exists state. simpl. rewrite Hs, Hm. auto.
  - intros state m Hs Hne Hm Ht.
    apply (start_lookup_raises _ _ _ _ _ _ _ _ Hr Hd Hl).
    right. right. exists state. simpl. rewrite Hs, Hm.
    split; [reflexivity|]. split; [assumption|].
    right. exists (JDict m). simpl. now rewrite Ht.
Qed.

(** An empty object on standard output. *)
Lemma handshake_missing_field_witness :
  result (start empty_object_host [] example_singleton) = inl (KeyError "state")
  /\ pid (final (start empty_object_host [] example_singleton)) = None.
Proof.
  refine (proj1 (handshake_missing_field empty_object_host [] example_singleton
                   "{}" "" "{}" [] _ _ _) _);
    try (repeat split); vm_compute; reflexivity.
Defined.

(** X15: a handshake that decodes to something else than an object (an
    array, a string, a number, true, false, null) makes [start] raise
    [TypeError]; so does a rejection whose message is not an object, such as
    a plain string.  The identifier field is left as it was. *)
Theorem handshake_not_object (w : World) (kwargs : dict)
  (self : LocalSingleton) (out err s : string) (data : json) :
  reaches_handshake w kwargs self out err ->
  decode (chosen_output out err) = inr s ->
  loads s = inr data ->
  ((forall d, data <> JDict d) ->
     exists msg, result (start w kwargs self) = inl (TypeError msg)
                 /\ pid (final (start w kwargs self)) = pid self)
  /\ (forall state m,
        getitem data "state" = inr state -> state <> JStr "connected" ->
        getitem data "message" = inr m -> (forall d, m <> JDict d) ->
        exists msg, result (start w kwargs self) = inl (TypeError msg)
                    /\ pid (final (start w kwargs self)) = pid self).
Proof.
  intros Hr Hd Hl.
  assert (Hty : forall x k, (forall d, x <> JDict d) ->
             exists msg, getitem x k = inl (TypeError msg)).
  { intros x k Hx. destruct x; simpl; eauto. now destruct (Hx d). }
  split.
  - intros Hx. destruct (Hty data "state" Hx) as (msg & Hs).
    exists msg. eapply start_lookup_raises; eauto.
  - intros state m Hs Hne Hm Hx. destruct (Hty m "message" Hx) as (msg & Ht).
    exists msg. eapply start_lookup_raises; eauto.
    right. right. exists state. eauto 10.
Qed.

(** An array, and a rejection with a plain string for message. *)
Lemma handshake_not_object_witness :
  (exists msg, result (start array_host [] example_singleton) = inl (TypeError msg)
               /\ pid (final (start array_host [] example_singleton)) = pid example_singleton)
  /\ (exists msg,
        result (start plain_message_host [] example_singleton) = inl (TypeError msg)
        /\ pid (final (start plain_message_host [] example_singleton))
           = pid example_singleton).
Proof.
  split.
  - refine (proj1 (handshake_not_object array_host [] example_singleton
                     "[]" "" "[]" (JList []) _ _ _) _);
      try discriminate; try (repeat split); vm_compute; reflexivity.
  - refine (proj2 (handshake_not_object plain_message_host [] example_singleton
                     plain_message_handshake "" plain_message_handshake
                     (JDict [("state", JStr "error"); ("message", JStr "bad key")])
                     _ _ _)
              (JStr "error") (JStr "bad key") _ _ _ _);
      try discriminate; try (repeat split); vm_compute; reflexivity.
Defined.

(** ** Scoped use *)

(** What [__enter__] is: [start] with the stored options for keyword
    arguments, and the instance for value. *)
Lemma enter_unfold (w : World) (self : LocalSingleton) :
  __enter__ w self =
  match start w (options self) self with
  | Outcome s t (inl e) => Outcome s t (inl e)
  | Outcome s t (inr _) => Outcome s (t ++ []) (inr s)
  end.
Proof.
  unfold __enter__, bind, get. simpl.
  now destruct (start w (options self) self) as [s t [e|[]]].
Qed.

(** X16: once a truthy onlyCommand is stored, scoped use launches nothing:
    [__enter__] passes the stored options as keyword arguments, so it is a
    dry run.  With the binary path settled it returns the instance, having
    at most asked the resolver, and records no identifier. *)
Theorem enter_dry_run (w : World) (self : LocalSingleton) :
  only_command (options self) = true ->
  dict_contains (options self) "binarypath" = true
    \/ (exists path, get_binary w = inr path) ->
  result (__enter__ w self) = inr (final (__enter__ w self))
  /\ (forall ev, In ev (trace (__enter__ w self)) -> ev = EvGetBinary)
  /\ pid (final (__enter__ w self)) = pid self.
Proof.
  intros Hoc Hb. rewrite enter_unfold.
  destruct (start_only_command w (options self) self Hoc) as (Ef & Et & Er).
  pose proof (configure_pid w (options self) self) as Hp.
  pose proof (configure_outcome w (options self) self) as Ho.
  assert (Hok : result (configure w (options self) self) = inr tt
                /\ forall ev, In ev (trace (configure w (options self) self)) ->
                      ev = EvGetBinary).
  { destruct (dict_get (dict_update (options self) (options self)) "binarypath")
      eqn:E.
    - destruct Ho as (-> & ->). split; [reflexivity | intros ev []].
    - destruct Ho as (-> & ->). destruct Hb as [Hb | (path & ->)].
      + apply (dict_contains_update (options self)) in Hb.
        unfold dict_contains in Hb. rewrite E in Hb. discriminate.
      + split; [reflexivity|]. intros ev [<-|[]]; reflexivity. }
  destruct Hok as (Hr & Hev).
  destruct (start w (options self) self) as [s t r]; simpl in *. subst s t r.
  rewrite Hr. simpl. rewrite app_nil_r. repeat split; auto.
Qed.

(** Scoped use of the singleton that a dry run left behind. *)
Lemma enter_dry_run_witness :
  (forall ev, In ev (trace (__enter__ connected_host dry_run_singleton)) ->
     ev = EvGetBinary)
  /\ pid (final (__enter__ connected_host dry_run_singleton)) = None.
Proof.
  destruct (enter_dry_run connected_host dry_run_singleton) as (_ & H1 & H2).
  - reflexivity.
  - right. exists (VStr "/opt/BrowserStackLocal"). reflexivity.
  - split; [exact H1 | exact H2].
Defined.

(** X17: entering the scope leaves the stored options as they are, apart
    from the reserved ones that [start] moves: for a well-formed option
    dictionary and a key that is not key, binarypath, logfile or source, the
    option stored after [__enter__] is the one stored before, however
    [__enter__] ends; and [__enter__] raises exactly when its [start]
    raises, with the same exception. *)
Theorem enter_keeps_options (w : World) (self : LocalSingleton) :
  NoDup (dict_keys (options self)) ->
  (forall k, k <> "key" -> k <> "binarypath" -> k <> "logfile" -> k <> "source" ->
     dict_get (options (final (__enter__ w self))) k = dict_get (options self) k)
  /\ (forall e, result (__enter__ w self) = inl e
                <-> result (start w (options self) self) = inl e)
  /\ (forall s, result (__enter__ w self) = inr s -> s = final (__enter__ w self)).
Proof.
  intros Hn. split; [| split].
  - intros k H1 H2 H3 H4. rewrite enter_final.
    transitivity (dict_get (dict_update (options self) (options self)) k).
    + apply (start_after_configure
               (fun s => dict_get (options s) k
                         = dict_get (dict_update (options self) (options self)) k));
        auto.
      * now apply (configure_facts w (options self) self).
      * intros s Hs. now rewrite without_source_get.
    + rewrite dict_get_update by assumption.
      now destruct (dict_get (options self) k).
  - intros e. rewrite enter_unfold.
    destruct (start w (options self) self) as [s t [e'|[]]]; simpl;
      split; congruence.
  - intros s. rewrite enter_unfold.
    destruct (start w (options self) self) as [s' t [e'|[]]]; simpl; congruence.
Qed.

Lemma enter_keeps_options_witness :
  dict_get (options (final (__enter__ rejected_host dry_run_singleton)))
    "onlyCommand" = Some (VBool true).
Proof.
  apply (proj1 (enter_keeps_options rejected_host dry_run_singleton
                  ltac:(vm_compute; repeat constructor; intros []))
           "onlyCommand"); discriminate.
Defined.
